(** * MathLive auto-render: delimiter matching, segmentation and tree rewrite

    A shallow embedding of [src/addons/auto-render.js]
    ([findEndOfMath], [splitAtDelimiters], [splitWithDelimiters], [scanText],
    [scanElement], [defaultOptions], [renderMathInElement]) together with the
    properties of its specification.

    Conventions.
    - A JavaScript string is a list of code units; the code only compares
      units for equality, so a unit is an [ascii] here.
    - Indices and the brace level are [Z], as the code uses [-1] for
      "not found" and lets the brace level go below zero.
    - A [while] loop whose termination depends on the input takes a [fuel]
      argument and returns [None] when the fuel is spent.
    - The option object comes twice: complete, as a record with every part
      of [TeX] in it ([overrides], [settings]), and as a caller may shape
      it, with parts of [TeX] and tokens of a pair missing
      ([dynOverrides], [dynSettings]); on the second the walker raises the
      [TypeError] of a read on [undefined], and on a complete object the
      two walkers agree (lemma [renderMathInElement_dyn_complete]). *)

From Stdlib Require Import List ZArith Lia Bool Ascii String.
Import ListNotations.
Open Scope Z_scope.

(** ** JavaScript strings *)

Module JSString.

Definition str := list ascii.

Definition lit (s : string) : str := list_ascii_of_string s.

Definition len (s : str) : Z := Z.of_nat (List.length s).

(** Relative index resolution of [String.prototype.slice]. *)
Definition clampIndex (n k : Z) : Z :=
  if k <? 0 then Z.max (n + k) 0 else Z.min k n.

(** [s.slice(a, b)] *)
Definition slice (s : str) (a b : Z) : str :=
  let from := clampIndex (len s) a in
  let to := clampIndex (len s) b in
  firstn (Z.to_nat (to - from)) (skipn (Z.to_nat from) s).

(** [s.slice(a)] *)
Definition sliceFrom (s : str) (a : Z) : str := slice s a (len s).

(** [s[k]]; [None] stands for [undefined]. *)
Definition charAt (s : str) (k : Z) : option ascii :=
  if k <? 0 then None else nth_error s (Z.to_nat k).

(** [a === b] on strings *)
Fixpoint str_eqb (a b : str) : bool :=
  match a, b with
  | [], [] => true
  | x :: a', y :: b' => Ascii.eqb x y && str_eqb a' b'
  | _, _ => false
  end.

Fixpoint startsWith (p s : str) : bool :=
  match p, s with
  | [], _ => true
  | x :: p', y :: s' => Ascii.eqb x y && startsWith p' s'
  | _ :: _, [] => false
  end.

Fixpoint indexOfFrom (search rest : str) (k : Z) : Z :=
  if startsWith search rest then k
  else match rest with
       | [] => -1
       | _ :: rest' => indexOfFrom search rest' (k + 1)
       end.

(** [s.indexOf(search, position)]: the position is clamped to [0, len s]. *)
Definition indexOf (s search : str) (position : Z) : Z :=
  let start := Z.min (Z.max position 0) (len s) in
  indexOfFrom search (skipn (Z.to_nat start) s) start.

Definition is_char (c : ascii) (o : option ascii) : bool :=
  match o with
  | Some x => Ascii.eqb x c
  | None => false
  end.

(** [s.includes(x)] on an array of strings *)
Definition includes (l : list str) (x : str) : bool := existsb (str_eqb x) l.

(** [String.prototype.toLowerCase] on code units below 256. *)
Definition lowerUnit (c : ascii) : ascii :=
  let n := N_of_ascii c in
  if ((65 <=? n) && (n <=? 90))%N then ascii_of_N (n + 32)
  else if ((192 <=? n) && (n <=? 222) && negb (n =? 215))%N then ascii_of_N (n + 32)
  else c.

Definition toLowerCase (s : str) : str := map lowerUnit s.

End JSString.
Import JSString.

(** ** [findEndOfMath] *)

Definition backslash : ascii := "\"%char.
Definition lbrace : ascii := "{"%char.
Definition rbrace : ascii := "}"%char.

(** The [while (index < text.length)] loop of [findEndOfMath]. *)
Fixpoint findEndOfMath_loop (fuel : nat) (delimiter text : str)
    (index braceLevel : Z) : option Z :=
  match fuel with
  | O => None
  | S fuel' =>
      if index <? len text then
        let character := charAt text index in
        if (braceLevel <=? 0)
           && str_eqb (slice text index (index + len delimiter)) delimiter
        then Some index
        else if is_char backslash character then
          findEndOfMath_loop fuel' delimiter text (index + 1 + 1) braceLevel
        else if is_char lbrace character then
          findEndOfMath_loop fuel' delimiter text (index + 1) (braceLevel + 1)
        else if is_char rbrace character then
          findEndOfMath_loop fuel' delimiter text (index + 1) (braceLevel - 1)
        else
          findEndOfMath_loop fuel' delimiter text (index + 1) braceLevel
      else Some (-1)
  end.

(** The index grows at every iteration, so [text.length - startIndex + 1]
    iterations are enough (lemma [findEndOfMath_loop_enough]). *)
Definition findEndOfMath (delimiter text : str) (startIndex : Z) : Z :=
  match findEndOfMath_loop (S (Z.to_nat (len text - startIndex)))
          delimiter text startIndex 0 with
  | Some r => r
  | None => -1
  end.

(** *** The matcher as the specification words it

    The scan positions from a start offset, each with the brace depth in
    force there: a backslash skips the unit after it, an opening brace raises
    and a closing brace lowers the depth seen by the next position. *)
Fixpoint scanPositions (rest : str) (pos depth : Z) : list (Z * Z) :=
  match rest with
  | [] => []
  | c :: rest' =>
      (pos, depth) ::
      if Ascii.eqb c backslash then
        match rest' with
        | [] => []
        | _ :: rest'' => scanPositions rest'' (pos + 2) depth
        end
      else if Ascii.eqb c lbrace then scanPositions rest' (pos + 1) (depth + 1)
      else if Ascii.eqb c rbrace then scanPositions rest' (pos + 1) (depth - 1)
      else scanPositions rest' (pos + 1) depth
  end.

(** The right-delimiter token occurs in [text] starting at offset [pos]. *)
Definition occursAt (delimiter text : str) (pos : Z) : bool :=
  startsWith delimiter (skipn (Z.to_nat pos) text).

(** A scan position, with its depth, is a match: the depth is at most zero
    and the token occurs there. *)
Definition matchesAt (delimiter text : str) (pd : Z * Z) : bool :=
  (snd pd <=? 0) && occursAt delimiter text (fst pd).

(** First scan position with depth at most zero where the token occurs. *)
Definition firstMatch (delimiter text : str) (startIndex : Z) : Z :=
  match find (matchesAt delimiter text)
             (scanPositions (skipn (Z.to_nat startIndex) text) startIndex 0) with
  | Some pd => fst pd
  | None => -1
  end.


(** ** Segments *)

Inductive mathstyle := textstyle | displaystyle.

(** [{type: 'text', data}] and [{type: 'math', data, rawData, mathstyle}] *)
Inductive segment :=
| TextSeg (data : str)
| MathSeg (data rawData : str) (style : mathstyle).

(** The delimiter-inclusive source of a segment. *)
Definition raw (s : segment) : str :=
  match s with
  | TextSeg data => data
  | MathSeg _ rawData _ => rawData
  end.

(** The text that a list of segments spells. *)
Definition rawText (data : list segment) : str := List.concat (map raw data).

Definition isMath (s : segment) : bool :=
  match s with
  | TextSeg _ => false
  | MathSeg _ _ _ => true
  end.

(** ** [splitAtDelimiters] *)

(** The [while (!done)] loop.  The state is [lookingForLeft], [currIndex] and
    [finalData]; both exits ([done = true; break]) leave the loop with the
    current state. *)
Fixpoint splitAtDelimiters_while (fuel : nat) (text leftDelim rightDelim : str)
    (style : mathstyle) (lookingForLeft : bool) (currIndex : Z)
    (finalData : list segment) : option (Z * list segment) :=
  match fuel with
  | O => None
  | S fuel' =>
      if lookingForLeft then
        let nextIndex := indexOf text leftDelim currIndex in
        if nextIndex =? -1 then Some (currIndex, finalData)
        else
          splitAtDelimiters_while fuel' text leftDelim rightDelim style
            false nextIndex
            (finalData ++ [TextSeg (slice text currIndex nextIndex)])
      else
        let nextIndex :=
          findEndOfMath rightDelim text (currIndex + len leftDelim) in
        if nextIndex =? -1 then Some (currIndex, finalData)
        else
          splitAtDelimiters_while fuel' text leftDelim rightDelim style
            true (nextIndex + len rightDelim)
            (finalData ++
             [MathSeg (slice text (currIndex + len leftDelim) nextIndex)
                      (slice text currIndex (nextIndex + len rightDelim))
                      style])
  end.

(** The body of the [for] loop for one text segment. *)
Definition splitAtDelimiters_text (fuel : nat) (text leftDelim rightDelim : str)
    (style : mathstyle) (finalData : list segment) : option (list segment) :=
  let nextIndex := indexOf text leftDelim 0 in
  let '(lookingForLeft, currIndex, finalData) :=
    if nextIndex =? -1 then (true, 0, finalData)
    else (false, nextIndex, finalData ++ [TextSeg (slice text 0 nextIndex)]) in
  match splitAtDelimiters_while fuel text leftDelim rightDelim style
          lookingForLeft currIndex finalData with
  | None => None
  | Some (currIndex, finalData) =>
      Some (finalData ++ [TextSeg (sliceFrom text currIndex)])
  end.

(** The [for] loop over [startData], pushing onto [finalData]. *)
Fixpoint splitAtDelimiters_for (fuel : nat) (startData : list segment)
    (leftDelim rightDelim : str) (style : mathstyle)
    (finalData : list segment) : option (list segment) :=
  match startData with
  | [] => Some finalData
  | TextSeg text :: rest =>
      match splitAtDelimiters_text fuel text leftDelim rightDelim style
              finalData with
      | None => None
      | Some finalData =>
          splitAtDelimiters_for fuel rest leftDelim rightDelim style finalData
      end
  | seg :: rest =>
      splitAtDelimiters_for fuel rest leftDelim rightDelim style
        (finalData ++ [seg])
  end.

Definition splitAtDelimiters (fuel : nat) (startData : list segment)
    (leftDelim rightDelim : str) (style : mathstyle) : option (list segment) :=
  splitAtDelimiters_for fuel startData leftDelim rightDelim style [].

(** ** [splitWithDelimiters] *)

Record Delimiters := {
  inline : list (str * str);
  display : list (str * str)
}.

(** One [for] loop of [splitWithDelimiters]: a pass per delimiter pair. *)
Fixpoint splitWithDelimiters_for (fuel : nat) (data : list segment)
    (pairs : list (str * str)) (style : mathstyle) : option (list segment) :=
  match pairs with
  | [] => Some data
  | delimiter :: rest =>
      match splitAtDelimiters fuel data (fst delimiter) (snd delimiter)
              style with
      | None => None
      | Some data => splitWithDelimiters_for fuel data rest style
      end
  end.

Definition splitWithDelimiters (fuel : nat) (text : str)
    (delimiters : Delimiters) : option (list segment) :=
  match splitWithDelimiters_for fuel [TextSeg text] (inline delimiters)
          textstyle with
  | None => None
  | Some data =>
      splitWithDelimiters_for fuel data (display delimiters) displaystyle
  end.


(** ** Proper delimiter pairs *)

Definition isEmpty (s : str) : bool :=
  match s with
  | [] => true
  | _ :: _ => false
  end.

(** A delimiter pair is proper when its two tokens are not both empty. *)
Definition properPair (d : str * str) : bool :=
  negb (isEmpty (fst d) && isEmpty (snd d)).

Definition properDelimiters (d : Delimiters) : bool :=
  forallb properPair (inline d) && forallb properPair (display d).

(** The measure of the loop: twice the units left, plus one when a left
    delimiter is looked for. *)
Definition whileMeasure (text : str) (lookingForLeft : bool) (currIndex : Z)
    : Z :=
  2 * (len text - currIndex) + (if lookingForLeft then 2 else 1).

(** ** The content tree *)

#[local] Set Warnings "-register-all".

(** A DOM node: a text node ([nodeType] 3), an element ([nodeType] 1) or
    a node of another kind, here a comment ([nodeType] 8). *)
Inductive node :=
| TextNode (textContent : str)
| Element (nodeName id className : str) (childNodes : list node)
| Comment (data : str).

Definition nodeType (n : node) : Z :=
  match n with
  | TextNode _ => 3
  | Element _ _ _ _ => 1
  | Comment _ => 8
  end.

(** [document.createElement('span')]: an element without children. *)
Definition createSpan : node := Element (lit "SPAN") [] [] [].

(** [elem.replaceChild(frag, childNode)] for the child at index [i]:
    the children of the fragment take the place of that child. *)
Definition replaceChild (childNodes : list node) (i : nat) (frag : list node)
    : list node :=
  firstn i childNodes ++ frag ++ skipn (S i) childNodes.

(** The children of a node; a node that is not an element has none. *)
Definition childNodesOf (n : node) : list node :=
  match n with
  | Element _ _ _ kids => kids
  | _ => []
  end.

(** The result of a child loop with nodes put before its visit log, or
    before its child list. *)
Definition withVisited (vis : list node) (r : option (list node * list node))
    : option (list node * list node) :=
  match r with
  | Some (out, v) => Some (out, vis ++ v)
  | None => None
  end.

Definition withPrefix (pre : list node) (r : option (list node * list node))
    : option (list node * list node) :=
  match r with
  | Some (out, v) => Some (pre ++ out, v)
  | None => None
  end.

(** What a JavaScript call can do besides returning. *)
Inductive exn :=
| SyntaxError (pattern : str)
| TypeError
| Error (message : str).

Inductive completion (A : Type) :=
| Normal (a : A)
| Throw (e : exn).
Arguments Normal {A} a.
Arguments Throw {A} e.

(** ** Options *)

Record TeXOptions := {
  disabled : bool;
  processEnvironments : bool;
  delimiters : Delimiters
}.

(** The option object as the caller gives it: every key may be missing; a
    [TeX] object, where given, is complete here (for one that is not, see
    [dynOverrides] below). *)
Record overrides := {
  o_skipTags : option (list str);
  o_ignoreClass : option str;
  o_processClass : option str;
  o_TeX : option TeXOptions
}.

Record settings := {
  skipTags : list str;
  ignoreClass : str;
  processClass : str;
  TeX : TeXOptions
}.

Definition defaultOptions : settings := {|
  skipTags := map lit ["script"; "noscript"; "style"; "textarea"; "pre";
                       "code"; "annotation"; "annotation-xml"]%string;
  ignoreClass := lit "tex2jax_ignore";
  processClass := lit "tex2jax_process";
  TeX := {|
    disabled := false;
    processEnvironments := true;
    delimiters := {|
      inline := [(lit "\(", lit "\)")];
      display := [(lit "$$", lit "$$"); (lit "\[", lit "\]")]
    |}
  |}
|}.

Definition orDefault {A : Type} (o : option A) (d : A) : A :=
  match o with
  | Some a => a
  | None => d
  end.

(** [Object.assign({}, defaultOptions, options)]: a key of [options]
    replaces the default whole (the merge is not deep). *)
Definition assign (defaults : settings) (options : overrides) : settings := {|
  skipTags := orDefault (o_skipTags options) (skipTags defaults);
  ignoreClass := orDefault (o_ignoreClass options) (ignoreClass defaults);
  processClass := orDefault (o_processClass options) (processClass defaults);
  TeX := orDefault (o_TeX options) (TeX defaults)
|}.

(** [/^\s*\\begin/]: white space below code unit 256, then the marker. *)
Definition isWhiteSpace (c : ascii) : bool :=
  let n := N_of_ascii c in
  (((9 <=? n) && (n <=? 13)) || (n =? 32) || (n =? 160))%N.

Fixpoint skipWhiteSpace (s : str) : str :=
  match s with
  | c :: s' => if isWhiteSpace c then skipWhiteSpace s' else s
  | [] => []
  end.

Definition matchesBegin (text : str) : bool :=
  startsWith (lit "\begin") (skipWhiteSpace text).

(** ** The tree walker *)

Section Walker.

(** The host: the regular-expression engine and the HTML parser behind
    [innerHTML].  [RegExp_new] is [None] when the constructor throws. *)
Variable regexp : Type.
Variable RegExp_new : str -> option regexp.
Variable RegExp_test : regexp -> str -> bool.
Variable parseHTML : str -> list node.

(** The renderer given by the caller. *)
Variable latexToMarkup : str -> mathstyle -> completion str.

(** The options after [renderMathInElement] has added the two patterns. *)
Record options := {
  given : settings;
  ignoreClassPattern : regexp;
  processClassPattern : regexp
}.

(** [span.innerHTML = markup] *)
Definition setInnerHTML (span : node) (markup : str) : node :=
  match span with
  | Element nodeName id className _ =>
      Element nodeName id className (parseHTML markup)
  | _ => span
  end.

(** The [for] loop of [scanText] over the segments. *)
Fixpoint scanText_for (data : list segment) (fragment : list node)
    : list node :=
  match data with
  | [] => fragment
  | TextSeg d :: rest => scanText_for rest (fragment ++ [TextNode d])
  | MathSeg d rawData style :: rest =>
      let span := createSpan in
      match latexToMarkup d style with
      | Throw _ => scanText_for rest (fragment ++ [TextNode rawData])
      | Normal markup =>
          scanText_for rest (fragment ++ [setInnerHTML span markup])
      end
  end.

(** The node that [scanText] appends for one segment. *)
Definition segmentNode (seg : segment) : node :=
  match seg with
  | TextSeg d => TextNode d
  | MathSeg d rawData style =>
      match latexToMarkup d style with
      | Throw _ => TextNode rawData
      | Normal markup => Element (lit "SPAN") [] [] (parseHTML markup)
      end
  end.

Definition scanText (fuel : nat) (text : str) (opts : options)
    : option (list node) :=
  let fragment : list node := [] in
  if processEnvironments (TeX (given opts)) && matchesBegin text then
    let span := createSpan in
    let fragment := fragment ++ [span] in
    match latexToMarkup text displaystyle with
    | Normal markup =>
        (* the span is already in the fragment: it is changed in place *)
        Some (replaceChild fragment 0 [setInnerHTML span markup])
    | Throw _ => Some (fragment ++ [TextNode text])
    end
  else
    match splitWithDelimiters fuel text (delimiters (TeX (given opts))) with
    | None => None
    | Some data => Some (scanText_for data fragment)
    end.

Definition shouldRender (opts : options) (nodeName className : str) : bool :=
  RegExp_test (processClassPattern opts) className
  || negb (includes (skipTags (given opts)) (toLowerCase nodeName)
           || RegExp_test (ignoreClassPattern opts) className).

(** The [for] loop of [scanElement] over the live child list.  The result is
    the child list after the loop and, as a ghost value, the nodes bound to
    [childNode] so far, in order.  A fragment of [scanText] has at least one
    child (lemma [scanText_nonempty]), so [length frag - 1] never falls
    below zero. *)
Fixpoint scanElement_for (fuel : nat) (opts : options)
    (childNodes : list node) (i : nat) (visited : list node)
    : option (list node * list node) :=
  match fuel with
  | O => None
  | S fuel' =>
      match nth_error childNodes i with
      | None => Some (childNodes, visited)
      | Some childNode =>
          let visited := visited ++ [childNode] in
          match childNode with
          | TextNode textContent =>
              match scanText fuel' textContent opts with
              | None => None
              | Some frag =>
                  (* [i += frag.childNodes.length - 1] comes first;
                     [replaceChild] finds [childNode] where it was read *)
                  let i' := i + (List.length frag - 1) in
                  scanElement_for fuel' opts (replaceChild childNodes i frag)
                    (i' + 1) visited
              end
          | Element nodeName id className kids =>
              if shouldRender opts nodeName className then
                match scanElement_for fuel' opts kids 0 visited with
                | None => None
                | Some (kids, visited) =>
                    scanElement_for fuel' opts
                      (replaceChild childNodes i
                         [Element nodeName id className kids])
                      (i + 1) visited
                end
              else scanElement_for fuel' opts childNodes (i + 1) visited
          | Comment _ => scanElement_for fuel' opts childNodes (i + 1) visited
          end
      end
  end%nat.

(** [scanElement(elem, options, latexToMarkup)]: the node after the call and
    the nodes visited. *)
Definition scanElement (fuel : nat) (elem : node) (opts : options)
    : option (node * list node) :=
  match elem with
  | Element nodeName id className kids =>
      match scanElement_for fuel opts kids 0 [] with
      | None => None
      | Some (kids, visited) =>
          Some (Element nodeName id className kids, visited)
      end
  | _ => Some (elem, [])
  end.

(** The nodes the descent reaches from a node: the node itself and, for an
    element the policy lets the walker enter, what is reached from its
    children, in document order. *)
Fixpoint reachableNodes (opts : options) (n : node) : list node :=
  n ::
  match n with
  | Element nodeName id className kids =>
      if shouldRender opts nodeName className
      then flat_map (reachableNodes opts) kids
      else []
  | _ => []
  end.

(** The loop over a child list returns, and visits what is reachable. *)
Definition loopReturns (opts : options) (childNodes : list node) : Prop :=
  exists N out, forall fuel, (N <= fuel)%nat ->
    scanElement_for fuel opts childNodes 0 []
    = Some (out, flat_map (reachableNodes opts) childNodes).

Definition kidsReturn (opts : options) (n : node) : Prop :=
  loopReturns opts (childNodesOf n).

(** ** The entry point *)

(** A node of the document is named by the child indices from
    [document.body] down to it. *)
Definition path := list nat.

Fixpoint findById (wanted : str) (n : node) : option path :=
  match n with
  | Element _ id _ kids =>
      if str_eqb id wanted then Some []
      else
        (fix among (kids : list node) (k : nat) : option path :=
           match kids with
           | [] => None
           | c :: rest =>
               match findById wanted c with
               | Some p => Some (k :: p)
               | None => among rest (S k)
               end
           end) kids 0%nat
  | _ => None
  end.

(** [document.getElementById(id)]; [None] stands for [null]. *)
Definition getElementById (body : node) (id : str) : option path :=
  match id with
  | [] => None
  | _ => findById id body
  end.

(** The first argument of [renderMathInElement]. *)
Inductive rootArg :=
| Absent
| ById (id : str)
| ByRef (p : path).

(** [!elem] *)
Definition falsy (elem : rootArg) : bool :=
  match elem with
  | Absent => true
  | ById [] => true
  | _ => false
  end.

(** [scanElement] on the node at a path of the document; a path that leads
    nowhere stands for a node outside the document, which stays as it is. *)
Fixpoint scanElementAt (fuel : nat) (p : path) (n : node) (opts : options)
    : option (node * list node) :=
  match p with
  | [] => scanElement fuel n opts
  | k :: p' =>
      match n with
      | Element nodeName id className kids =>
          match nth_error kids k with
          | Some c =>
              match scanElementAt fuel p' c opts with
              | None => None
              | Some (c, visited) =>
                  Some (Element nodeName id className (replaceChild kids k [c]),
                        visited)
              end
          | None => Some (n, [])
          end
      | _ => Some (n, [])
      end
  end.

(** How a call of the entry point ends: the document as it is then and the
    nodes visited. *)
Inductive result :=
| Completed (body : node) (visited : list node)
| Raised (e : exn) (body : node) (visited : list node)
| Unfinished.

Definition renderMathInElement (fuel : nat) (elem : rootArg)
    (options_ : overrides) (body : node) : result :=
  if falsy elem then Completed body []
  else
    let elem : option path :=
      match elem with
      | ById id => getElementById body id
      | ByRef p => Some p
      | Absent => None
      end in
    let elem : path := orDefault elem [] in
    let merged := assign defaultOptions options_ in
    match RegExp_new (ignoreClass merged) with
    | None => Raised (SyntaxError (ignoreClass merged)) body []
    | Some ignorePattern =>
        match RegExp_new (processClass merged) with
        | None => Raised (SyntaxError (processClass merged)) body []
        | Some processPattern =>
            let opts := {| given := merged;
                           ignoreClassPattern := ignorePattern;
                           processClassPattern := processPattern |} in
            match scanElementAt fuel elem body opts with
            | None => Unfinished
            | Some (body, visited) => Completed body visited
            end
        end
    end.

(** ** The callers in [mathlive.js]

    [renderMathInDocument] and [renderMathInElement] of the public module
    hand their arguments to the entry point above, with [toMarkup] (here
    [latexToMarkup]) as the renderer, when the [AutoRender] module is
    loaded; they return at once when it is not. *)
Definition MathLive_renderMathInDocument (AutoRender : bool) (fuel : nat)
    (options_ : overrides) (body : node) : result :=
  if negb AutoRender then Completed body []
  else renderMathInElement fuel (ByRef []) options_ body.

Definition MathLive_renderMathInElement (AutoRender : bool) (fuel : nat)
    (element : rootArg) (options_ : overrides) (body : node) : result :=
  if negb AutoRender then Completed body []
  else renderMathInElement fuel element options_ body.

End Walker.

Arguments given {regexp} _.
Arguments ignoreClassPattern {regexp} _.
Arguments processClassPattern {regexp} _.

(** ** A small host for worked examples

    A literal pattern (no metacharacter) matches the strings it occurs in;
    the engine below knows these patterns only and rejects every other one,
    among them the malformed pattern of one opening parenthesis. *)
Module Sample.

Definition isMeta (c : ascii) : bool :=
  existsb (Ascii.eqb c) (lit "\^$.|?*+()[]{}").

Definition RegExp_new (pattern : str) : option str :=
  if existsb isMeta pattern then None else Some pattern.

Definition RegExp_test (pattern s : str) : bool :=
  negb (indexOf s pattern 0 =? -1).

(** The markup is kept as one text node. *)
Definition parseHTML (markup : str) : list node := [TextNode markup].

(** A renderer that fails on sources with a question mark. *)
Definition latexToMarkup (source : str) (style : mathstyle) : completion str :=
  if negb (indexOf source (lit "?") 0 =? -1)
  then Throw (Error (lit "unknown"))
  else Normal (lit "<m>" ++ source ++ lit "</m>").

Definition render :=
  renderMathInElement str RegExp_new RegExp_test parseHTML latexToMarkup.

Definition noOverrides : overrides :=
  {| o_skipTags := None; o_ignoreClass := None; o_processClass := None;
     o_TeX := None |}.

Definition withDelimiters (d : Delimiters) : overrides :=
  {| o_skipTags := None; o_ignoreClass := None; o_processClass := None;
     o_TeX := Some {| disabled := false; processEnvironments := true;
                      delimiters := d |} |}.

Definition div (id className : str) (kids : list node) : node :=
  Element (lit "DIV") id className kids.

Definition opts : options str :=
  {| given := defaultOptions;
     ignoreClassPattern := lit "tex2jax_ignore";
     processClassPattern := lit "tex2jax_process" |}.

Definition scanText' := scanText str parseHTML latexToMarkup.
Definition scanElement' := scanElement str RegExp_test parseHTML latexToMarkup.
Definition scanElement_for' :=
  scanElement_for str RegExp_test parseHTML latexToMarkup.

(** A page with a formula, a formula the renderer rejects, a [pre] block
    and a [pre] block marked for processing. *)
Definition page : node :=
  div [] []
    [TextNode (lit "a $$x$$ b $$?$$");
     Element (lit "PRE") [] [] [TextNode (lit "$$y$$")];
     Element (lit "PRE") [] (lit "tex2jax_process") [TextNode (lit "\[z\]")]].

(** The page after a traversal from its top-level node. *)
Definition renderedPage : node :=
  div [] []
    [TextNode (lit "a ");
     Element (lit "SPAN") [] [] [TextNode (lit "<m>x</m>")];
     TextNode (lit " b ");
     TextNode (lit "$$?$$");
     TextNode [];
     Element (lit "PRE") [] [] [TextNode (lit "$$y$$")];
     Element (lit "PRE") [] (lit "tex2jax_process")
       [TextNode [];
        Element (lit "SPAN") [] [] [TextNode (lit "<m>z</m>")];
        TextNode []]].

Definition emptyPair : Delimiters := {| inline := [([], [])]; display := [] |}.


Definition badIgnoreClass : overrides :=
  {| o_skipTags := None; o_ignoreClass := Some (lit "(");
     o_processClass := None; o_TeX := None |}.

Definition inlineOnly : Delimiters :=
  {| inline := [(lit "\(", lit "\)")]; display := [] |}.

Definition sampleText : str := lit "a \(x\) $$ {$$} $$ \[ b".

End Sample.


(** ** Notions for further properties *)

(** An offset found in a suffix, as an offset of the whole text. *)
Definition shiftFound (k r : Z) : Z := if r =? -1 then -1 else r + k.

(** A unit that is neither a backslash nor a brace. *)
Definition isPlainUnit (c : ascii) : bool :=
  negb (Ascii.eqb c backslash || Ascii.eqb c lbrace || Ascii.eqb c rbrace).

(** No left token of the pairs occurs in the text. *)
Definition noLeftToken (text : str) (pairs : list (str * str)) : bool :=
  forallb (fun d => indexOf text (fst d) 0 =? -1) pairs.

(** No math segment follows a math segment, nor the start when [prevMath]
    says that a math segment comes before. *)
Fixpoint alternates (prevMath : bool) (data : list segment) : bool :=
  match data with
  | [] => true
  | seg :: rest =>
      negb (prevMath && isMath seg) && alternates (isMath seg) rest
  end.

Definition noAdjacentMath (data : list segment) : bool :=
  alternates false data.

(** Whether the last segment is a math segment; [prevMath] for no segment. *)
Fixpoint lastMath (prevMath : bool) (data : list segment) : bool :=
  match data with
  | [] => prevMath
  | seg :: rest => lastMath (isMath seg) rest
  end.

(** The raw field of a math segment is its source between the two tokens of
    a configured pair of the group its style names. *)
Definition wellWrapped (delimiters : Delimiters) (seg : segment) : Prop :=
  match seg with
  | TextSeg _ => True
  | MathSeg d rawData style =>
      exists pair,
        rawData = fst pair ++ d ++ snd pair
        /\ ((style = textstyle /\ In pair (inline delimiters))
            \/ (style = displaystyle /\ In pair (display delimiters)))
  end.

(** The result of a loop with segments put before what it pushed. *)
Definition appended {A B : Type} (fd : list B) (r : option (A * list B))
    : option (A * list B) :=
  match r with
  | Some (a, mid) => Some (a, fd ++ mid)
  | None => None
  end.

(** The text of the text nodes of a node, in document order. *)
Fixpoint textOf (n : node) : str :=
  match n with
  | TextNode t => t
  | Element _ _ _ kids => flat_map textOf kids
  | Comment _ => []
  end.

(** A text that [scanText] has nothing to do with: it does not open an
    environment that is to be processed, and no left token occurs in it. *)
Definition plainText (tex : TeXOptions) (text : str) : bool :=
  negb (processEnvironments tex && matchesBegin text)
  && noLeftToken text (inline (delimiters tex) ++ display (delimiters tex)).

Fixpoint plainNode (tex : TeXOptions) (n : node) : bool :=
  match n with
  | TextNode t => plainText tex t
  | Element _ _ _ kids => forallb (plainNode tex) kids
  | Comment _ => true
  end.

(** The options with another value of [TeX.disabled]. *)
Definition setDisabled (b : bool) (tex : TeXOptions) : TeXOptions :=
  {| disabled := b;
     processEnvironments := processEnvironments tex;
     delimiters := delimiters tex |}.

Definition withTeX (o : overrides) (tex : TeXOptions) : overrides :=
  {| o_skipTags := o_skipTags o;
     o_ignoreClass := o_ignoreClass o;
     o_processClass := o_processClass o;
     o_TeX := Some tex |}.

(** Two option values that the walker cannot tell apart: it reads the skip
    tags, the two patterns, [processEnvironments] and the delimiters. *)
Definition sameUse {regexp : Type} (a b : options regexp) : Prop :=
  skipTags (given a) = skipTags (given b)
  /\ processEnvironments (TeX (given a)) = processEnvironments (TeX (given b))
  /\ delimiters (TeX (given a)) = delimiters (TeX (given b))
  /\ ignoreClassPattern a = ignoreClassPattern b
  /\ processClassPattern a = processClassPattern b.

(** ** More sample data *)
Module SampleMore.

(** A renderer that fails on every source. *)
Definition alwaysFails (source : str) (style : mathstyle) : completion str :=
  Throw (Error source).

(** A page without math. *)
Definition plainPage : node :=
  Sample.div [] []
    [TextNode (lit "price: $5 (approx.)");
     Comment (lit " $$x$$ ");
     Element (lit "P") [] [] [TextNode (lit "no math here")]].

(** A page with an environment. *)
Definition environmentText : str := lit " \begin{matrix}1\end{matrix}".

End SampleMore.

(** ** Option objects as the caller may shape them

    [Object.assign] is shallow: a [TeX] object of the caller replaces the
    default one whole, so what it lacks is [undefined] when the walker reads
    it.  In the option object below [processEnvironments], [delimiters],
    [delimiters.inline], [delimiters.display] and each token of a pair may
    be missing; [None] stands for [undefined].  The other keys, where
    present, hold values of their documented kind.  The walker on these
    objects follows the same lines of the source as the walker above, and
    raises the [TypeError] that reading a property of [undefined] raises. *)

(** [delimiter[0]] and [delimiter[1]] *)
Definition dynPair : Type := option str * option str.

Record dynDelimiters := {
  dynInline : option (list dynPair);
  dynDisplay : option (list dynPair)
}.

Record dynTeX := {
  dynDisabled : option bool;
  dynProcessEnvironments : option bool;
  dynDelimitersOf : option dynDelimiters
}.

Record dynOverrides := {
  d_skipTags : option (list str);
  d_ignoreClass : option str;
  d_processClass : option str;
  d_TeX : option dynTeX
}.

Record dynSettings := {
  dynSkipTags : list str;
  dynIgnoreClass : str;
  dynProcessClass : str;
  dynTeXOf : dynTeX
}.

Definition defaultOptions_dyn : dynSettings := {|
  dynSkipTags := map lit ["script"; "noscript"; "style"; "textarea"; "pre";
                          "code"; "annotation"; "annotation-xml"]%string;
  dynIgnoreClass := lit "tex2jax_ignore";
  dynProcessClass := lit "tex2jax_process";
  dynTeXOf := {|
    dynDisabled := Some false;
    dynProcessEnvironments := Some true;
    dynDelimitersOf := Some {|
      dynInline := Some [(Some (lit "\("), Some (lit "\)"))];
      dynDisplay := Some [(Some (lit "$$"), Some (lit "$$"));
                          (Some (lit "\["), Some (lit "\]"))]
    |}
  |}
|}.

(** [Object.assign({}, defaultOptions, options)] *)
Definition assign_dyn (defaults : dynSettings) (options : dynOverrides)
    : dynSettings := {|
  dynSkipTags := orDefault (d_skipTags options) (dynSkipTags defaults);
  dynIgnoreClass := orDefault (d_ignoreClass options) (dynIgnoreClass defaults);
  dynProcessClass :=
    orDefault (d_processClass options) (dynProcessClass defaults);
  dynTeXOf := orDefault (d_TeX options) (dynTeXOf defaults)
|}.

(** The string that [indexOf] makes of its argument. *)
Definition toStringJS (o : option str) : str :=
  match o with
  | Some s => s
  | None => lit "undefined"
  end.

(** The truth value of a flag that may be missing. *)
Definition truthy (o : option bool) : bool := orDefault o false.

(** How a call ends: it returns, it throws, or the fuel is spent. *)
Inductive outcome (A : Type) :=
| Returns (a : A)
| Throws (e : exn)
| OutOfFuel.
Arguments Returns {A} a.
Arguments Throws {A} e.
Arguments OutOfFuel {A}.

(** The [while (!done)] loop with tokens that may be missing:
    [leftDelim.length] (line 71) and [delimiter.length] in [findEndOfMath]
    (line 10) throw on [undefined]. *)
Fixpoint splitAtDelimiters_while_dyn (fuel : nat) (text : str)
    (leftDelim rightDelim : option str) (style : mathstyle)
    (lookingForLeft : bool) (currIndex : Z) (finalData : list segment)
    : outcome (Z * list segment) :=
  match fuel with
  | O => OutOfFuel
  | S fuel' =>
      if lookingForLeft then
        let nextIndex := indexOf text (toStringJS leftDelim) currIndex in
        if nextIndex =? -1 then Returns (currIndex, finalData)
        else
          splitAtDelimiters_while_dyn fuel' text leftDelim rightDelim style
            false nextIndex
            (finalData ++ [TextSeg (slice text currIndex nextIndex)])
      else
        match leftDelim with
        | None => Throws TypeError
        | Some l =>
            match rightDelim with
            | None => Throws TypeError
            | Some r =>
                let nextIndex := findEndOfMath r text (currIndex + len l) in
                if nextIndex =? -1 then Returns (currIndex, finalData)
                else
                  splitAtDelimiters_while_dyn fuel' text leftDelim rightDelim
                    style true (nextIndex + len r)
                    (finalData ++
                     [MathSeg (slice text (currIndex + len l) nextIndex)
                              (slice text currIndex (nextIndex + len r))
                              style])
            end
        end
  end.

Definition splitAtDelimiters_text_dyn (fuel : nat) (text : str)
    (leftDelim rightDelim : option str) (style : mathstyle)
    (finalData : list segment) : outcome (list segment) :=
  let nextIndex := indexOf text (toStringJS leftDelim) 0 in
  let '(lookingForLeft, currIndex, finalData) :=
    if nextIndex =? -1 then (true, 0, finalData)
    else (false, nextIndex, finalData ++ [TextSeg (slice text 0 nextIndex)]) in
  match splitAtDelimiters_while_dyn fuel text leftDelim rightDelim style
          lookingForLeft currIndex finalData with
  | Returns (currIndex, finalData) =>
      Returns (finalData ++ [TextSeg (sliceFrom text currIndex)])
  | Throws e => Throws e
  | OutOfFuel => OutOfFuel
  end.

Fixpoint splitAtDelimiters_for_dyn (fuel : nat) (startData : list segment)
    (leftDelim rightDelim : option str) (style : mathstyle)
    (finalData : list segment) : outcome (list segment) :=
  match startData with
  | [] => Returns finalData
  | TextSeg text :: rest =>
      match splitAtDelimiters_text_dyn fuel text leftDelim rightDelim style
              finalData with
      | Returns finalData =>
          splitAtDelimiters_for_dyn fuel rest leftDelim rightDelim style
            finalData
      | Throws e => Throws e
      | OutOfFuel => OutOfFuel
      end
  | seg :: rest =>
      splitAtDelimiters_for_dyn fuel rest leftDelim rightDelim style
        (finalData ++ [seg])
  end.

Definition splitAtDelimiters_dyn (fuel : nat) (startData : list segment)
    (leftDelim rightDelim : option str) (style : mathstyle)
    : outcome (list segment) :=
  splitAtDelimiters_for_dyn fuel startData leftDelim rightDelim style [].

Fixpoint splitWithDelimiters_for_dyn (fuel : nat) (data : list segment)
    (pairs : list dynPair) (style : mathstyle) : outcome (list segment) :=
  match pairs with
  | [] => Returns data
  | delimiter :: rest =>
      match splitAtDelimiters_dyn fuel data (fst delimiter) (snd delimiter)
              style with
      | Returns data => splitWithDelimiters_for_dyn fuel data rest style
      | Throws e => Throws e
      | OutOfFuel => OutOfFuel
      end
  end.

(** [splitWithDelimiters(text, delimiters)]: [delimiters.inline.length]
    (line 108) throws when [delimiters] or its [inline] is missing, and
    [delimiters.display.length] (line 113), read after the inline passes,
    when [display] is. *)
Definition splitWithDelimiters_dyn (fuel : nat) (text : str)
    (delimiters : option dynDelimiters) : outcome (list segment) :=
  match delimiters with
  | None => Throws TypeError
  | Some delimiters =>
      match dynInline delimiters with
      | None => Throws TypeError
      | Some inlinePairs =>
          match splitWithDelimiters_for_dyn fuel [TextSeg text] inlinePairs
                  textstyle with
          | Returns data =>
              match dynDisplay delimiters with
              | None => Throws TypeError
              | Some displayPairs =>
                  splitWithDelimiters_for_dyn fuel data displayPairs
                    displaystyle
              end
          | Throws e => Throws e
          | OutOfFuel => OutOfFuel
          end
      end
  end.

(** How a walk over children ends: it returns the children and the visit
    log, it throws with the children and the log as they are then, or the
    fuel is spent. *)
Inductive walk (A : Type) :=
| Walked (a : A) (visited : list node)
| Broke (e : exn) (a : A) (visited : list node)
| Tired.
Arguments Walked {A} a visited.
Arguments Broke {A} e a visited.
Arguments Tired {A}.

Section DynWalker.

Variable regexp : Type.
Variable RegExp_new : str -> option regexp.
Variable RegExp_test : regexp -> str -> bool.
Variable parseHTML : str -> list node.
Variable latexToMarkup : str -> mathstyle -> completion str.

Record dynOptions := {
  dynGiven : dynSettings;
  dynIgnoreClassPattern : regexp;
  dynProcessClassPattern : regexp
}.

(** [scanText]: the call of [splitWithDelimiters] (line 138) is outside the
    [try], so what it throws leaves [scanText]. *)
Definition scanText_dyn (fuel : nat) (text : str) (opts : dynOptions)
    : outcome (list node) :=
  let fragment : list node := [] in
  if truthy (dynProcessEnvironments (dynTeXOf (dynGiven opts)))
     && matchesBegin text
  then
    let span := createSpan in
    let fragment := fragment ++ [span] in
    match latexToMarkup text displaystyle with
    | Normal markup =>
        Returns (replaceChild fragment 0 [setInnerHTML parseHTML span markup])
    | Throw _ => Returns (fragment ++ [TextNode text])
    end
  else
    match splitWithDelimiters_dyn fuel text
            (dynDelimitersOf (dynTeXOf (dynGiven opts))) with
    | Returns data =>
        Returns (scanText_for parseHTML latexToMarkup data fragment)
    | Throws e => Throws e
    | OutOfFuel => OutOfFuel
    end.

Definition shouldRender_dyn (opts : dynOptions) (nodeName className : str)
    : bool :=
  RegExp_test (dynProcessClassPattern opts) className
  || negb (includes (dynSkipTags (dynGiven opts)) (toLowerCase nodeName)
           || RegExp_test (dynIgnoreClassPattern opts) className).

(** The [for] loop of [scanElement]: nothing catches what [scanText] or the
    call on a child throws, so it leaves the loop with the children as they
    are then. *)
Fixpoint scanElement_for_dyn (fuel : nat) (opts : dynOptions)
    (childNodes : list node) (i : nat) (visited : list node)
    : walk (list node) :=
  match fuel with
  | O => Tired
  | S fuel' =>
      match nth_error childNodes i with
      | None => Walked childNodes visited
      | Some childNode =>
          let visited := visited ++ [childNode] in
          match childNode with
          | TextNode textContent =>
              match scanText_dyn fuel' textContent opts with
              | Returns frag =>
                  let i' := i + (List.length frag - 1) in
                  scanElement_for_dyn fuel' opts
                    (replaceChild childNodes i frag) (i' + 1) visited
              | Throws e => Broke e childNodes visited
              | OutOfFuel => Tired
              end
          | Element nodeName id className kids =>
              if shouldRender_dyn opts nodeName className then
                match scanElement_for_dyn fuel' opts kids 0 visited with
                | Walked kids visited =>
                    scanElement_for_dyn fuel' opts
                      (replaceChild childNodes i
                         [Element nodeName id className kids])
                      (i + 1) visited
                | Broke e kids visited =>
                    Broke e
                      (replaceChild childNodes i
                         [Element nodeName id className kids])
                      visited
                | Tired => Tired
                end
              else scanElement_for_dyn fuel' opts childNodes (i + 1) visited
          | Comment _ =>
              scanElement_for_dyn fuel' opts childNodes (i + 1) visited
          end
      end
  end%nat.

Definition scanElement_dyn (fuel : nat) (elem : node) (opts : dynOptions)
    : walk node :=
  match elem with
  | Element nodeName id className kids =>
      match scanElement_for_dyn fuel opts kids 0 [] with
      | Walked kids visited =>
          Walked (Element nodeName id className kids) visited
      | Broke e kids visited =>
          Broke e (Element nodeName id className kids) visited
      | Tired => Tired
      end
  | _ => Walked elem []
  end.

Fixpoint scanElementAt_dyn (fuel : nat) (p : path) (n : node)
    (opts : dynOptions) : walk node :=
  match p with
  | [] => scanElement_dyn fuel n opts
  | k :: p' =>
      match n with
      | Element nodeName id className kids =>
          match nth_error kids k with
          | Some c =>
              match scanElementAt_dyn fuel p' c opts with
              | Walked c visited =>
                  Walked (Element nodeName id className
                            (replaceChild kids k [c])) visited
              | Broke e c visited =>
                  Broke e (Element nodeName id className
                             (replaceChild kids k [c])) visited
              | Tired => Tired
              end
          | None => Walked n []
          end
      | _ => Walked n []
      end
  end.

(** [renderMathInElement] on an option object of any of these shapes. *)
Definition renderMathInElement_dyn (fuel : nat) (elem : rootArg)
    (options_ : dynOverrides) (body : node) : result :=
  if falsy elem then Completed body []
  else
    let elem : option path :=
      match elem with
      | ById id => getElementById body id
      | ByRef p => Some p
      | Absent => None
      end in
    let elem : path := orDefault elem [] in
    let merged := assign_dyn defaultOptions_dyn options_ in
    match RegExp_new (dynIgnoreClass merged) with
    | None => Raised (SyntaxError (dynIgnoreClass merged)) body []
    | Some ignorePattern =>
        match RegExp_new (dynProcessClass merged) with
        | None => Raised (SyntaxError (dynProcessClass merged)) body []
        | Some processPattern =>
            let opts := {| dynGiven := merged;
                           dynIgnoreClassPattern := ignorePattern;
                           dynProcessClassPattern := processPattern |} in
            match scanElementAt_dyn fuel elem body opts with
            | Tired => Unfinished
            | Walked body visited => Completed body visited
            | Broke e body visited => Raised e body visited
            end
        end
    end.

End DynWalker.

Arguments dynGiven {regexp} _.
Arguments dynIgnoreClassPattern {regexp} _.
Arguments dynProcessClassPattern {regexp} _.

(** *** Complete option objects

    An option object is complete when both delimiter lists are there and
    every pair has its two tokens; it is then the option object of the
    walker above, a missing [processEnvironments] or [disabled] counting as
    false. *)
Definition completePair (p : dynPair) : option (str * str) :=
  match p with
  | (Some l, Some r) => Some (l, r)
  | _ => None
  end.

Fixpoint completePairs (pairs : list dynPair) : option (list (str * str)) :=
  match pairs with
  | [] => Some []
  | p :: rest =>
      match completePair p, completePairs rest with
      | Some p', Some rest' => Some (p' :: rest')
      | _, _ => None
      end
  end.

Definition completeDelimiters (d : option dynDelimiters) : option Delimiters :=
  match d with
  | Some d =>
      match dynInline d, dynDisplay d with
      | Some i, Some di =>
          match completePairs i, completePairs di with
          | Some i', Some di' => Some {| inline := i'; display := di' |}
          | _, _ => None
          end
      | _, _ => None
      end
  | None => None
  end.

Definition completeTeX (t : dynTeX) : option TeXOptions :=
  match completeDelimiters (dynDelimitersOf t) with
  | Some d =>
      Some {| disabled := truthy (dynDisabled t);
              processEnvironments := truthy (dynProcessEnvironments t);
              delimiters := d |}
  | None => None
  end.

Definition completeOverrides (o : dynOverrides) : option overrides :=
  match d_TeX o with
  | None =>
      Some {| o_skipTags := d_skipTags o; o_ignoreClass := d_ignoreClass o;
              o_processClass := d_processClass o; o_TeX := None |}
  | Some t =>
      match completeTeX t with
      | Some t' =>
          Some {| o_skipTags := d_skipTags o;
                  o_ignoreClass := d_ignoreClass o;
                  o_processClass := d_processClass o; o_TeX := Some t' |}
      | None => None
      end
  end.

Definition completeSettings (s : dynSettings) : option settings :=
  match completeTeX (dynTeXOf s) with
  | Some t =>
      Some {| skipTags := dynSkipTags s; ignoreClass := dynIgnoreClass s;
              processClass := dynProcessClass s; TeX := t |}
  | None => None
  end.

Definition completeOptions {regexp : Type} (o : dynOptions regexp)
    : option (options regexp) :=
  match completeSettings (dynGiven o) with
  | Some s =>
      Some {| given := s;
              ignoreClassPattern := dynIgnoreClassPattern o;
              processClassPattern := dynProcessClassPattern o |}
  | None => None
  end.

(** A returned value or spent fuel, as an outcome and as a walk. *)
Definition returned {A : Type} (o : option A) : outcome A :=
  match o with
  | Some a => Returns a
  | None => OutOfFuel
  end.

Definition walked {A : Type} (o : option (A * list node)) : walk A :=
  match o with
  | Some (a, visited) => Walked a visited
  | None => Tired
  end.

Module SampleDyn.

Definition render :=
  renderMathInElement_dyn str Sample.RegExp_new Sample.RegExp_test
    Sample.parseHTML Sample.latexToMarkup.

(** [{TeX: {processEnvironments: false}}] *)
Definition environmentsOff : dynOverrides :=
  {| d_skipTags := None; d_ignoreClass := None; d_processClass := None;
     d_TeX := Some {| dynDisabled := None;
                      dynProcessEnvironments := Some false;
                      dynDelimitersOf := None |} |}.

(** [{TeX: {delimiters: {inline: [['$']], display: []}}}] *)
Definition rightTokenMissing : dynOverrides :=
  {| d_skipTags := None; d_ignoreClass := None; d_processClass := None;
     d_TeX := Some {| dynDisabled := None;
                      dynProcessEnvironments := None;
                      dynDelimitersOf :=
                        Some {| dynInline := Some [(Some (lit "$"), None)];
                                dynDisplay := Some [] |} |} |}.

(** [{TeX: {delimiters: {inline: [['$', '$']], display: []}}}] *)
Definition dollars : dynOverrides :=
  {| d_skipTags := None; d_ignoreClass := None; d_processClass := None;
     d_TeX := Some {| dynDisabled := None;
                      dynProcessEnvironments := None;
                      dynDelimitersOf :=
                        Some {| dynInline := Some [(Some (lit "$"),
                                                    Some (lit "$"))];
                                dynDisplay := Some [] |} |} |}.

(** The same option object, complete. *)
Definition dollarsComplete : overrides :=
  {| o_skipTags := None; o_ignoreClass := None; o_processClass := None;
     o_TeX := Some {| disabled := false; processEnvironments := false;
                      delimiters := {| inline := [(lit "$", lit "$")];
                                       display := [] |} |} |}.

Definition badIgnoreClass : dynOverrides :=
  {| d_skipTags := None; d_ignoreClass := Some (lit "(");
     d_processClass := None; d_TeX := None |}.

(** A page with a paragraph before a text with a dollar. *)
Definition shop : node :=
  Sample.div [] []
    [Element (lit "P") [] [] [];
     TextNode (lit "price: $5");
     TextNode (lit "more")].

End SampleDyn.

(** * Properties *)

(** ** Strings *)

Lemma len_nonneg (s : str) : 0 <= len s.
Proof. unfold len; lia. Qed.

Lemma len_app (a b : str) : len (a ++ b) = len a + len b.
Proof. unfold len; rewrite length_app; lia. Qed.

Lemma str_eqb_eq (a b : str) : str_eqb a b = true <-> a = b.
Proof.
  revert b; induction a as [|x a IH]; intros [|y b]; simpl;
    try (split; [discriminate | congruence]); try tauto.
  rewrite andb_true_iff, Ascii.eqb_eq, IH.
  split; [intros [-> ->]; reflexivity | intros E; inversion E; auto].
Qed.

Lemma startsWith_app (p s : str) :
  startsWith p s = true <-> exists t, s = p ++ t.
Proof.
  revert s; induction p as [|x p IH]; intros s; simpl.
  - split; [exists s; reflexivity | reflexivity].
  - destruct s as [|y s].
    + split; [discriminate | intros [t E]; discriminate].
    + rewrite andb_true_iff, Ascii.eqb_eq, IH. split.
      * intros [-> [t ->]]. exists t; reflexivity.
      * intros [t E]; inversion E; subst. split; [reflexivity | eauto].
Qed.

Lemma startsWith_len (p s : str) : startsWith p s = true -> len p <= len s.
Proof.
  intros H; apply startsWith_app in H as [t ->]. rewrite len_app.
  pose proof (len_nonneg t); lia.
Qed.

Lemma startsWith_firstn (p s : str) :
  startsWith p s = str_eqb (firstn (List.length p) s) p.
Proof.
  revert s; induction p as [|x p IH]; intros [|y s]; simpl; auto.
  rewrite IH, (Ascii.eqb_sym x y); reflexivity.
Qed.

Lemma firstn_plus {A : Type} (a b : nat) (l : list A) :
  firstn (a + b) l = firstn a l ++ firstn b (skipn a l).
Proof.
  revert l; induction a as [|a IH]; intros [|x l]; simpl; auto.
  - rewrite firstn_nil; reflexivity.
  - rewrite IH; reflexivity.
Qed.

Lemma skipn_nth_cons {A : Type} (n : nat) (l : list A) (c : A) :
  nth_error l n = Some c -> skipn n l = c :: skipn (S n) l.
Proof.
  revert l; induction n as [|n IH]; intros [|x l]; simpl; try discriminate.
  - intros E; inversion E; reflexivity.
  - intros E. apply IH in E. exact E.
Qed.

(** [slice] between two offsets inside the string. *)
Lemma slice_inside (s : str) (a b : Z) :
  0 <= a -> 0 <= b ->
  slice s a b =
  firstn (Z.to_nat (Z.min b (len s)) - Z.to_nat (Z.min a (len s)))
         (skipn (Z.to_nat (Z.min a (len s))) s).
Proof.
  intros Ha Hb. unfold slice, clampIndex.
  destruct (a <? 0) eqn:Ea; [apply Z.ltb_lt in Ea; lia|].
  destruct (b <? 0) eqn:Eb; [apply Z.ltb_lt in Eb; lia|].
  f_equal. pose proof (len_nonneg s). lia.
Qed.

Lemma firstn_slice (s : str) (a b : Z) :
  0 <= a <= b -> b <= len s ->
  firstn (Z.to_nat a) s ++ slice s a b = firstn (Z.to_nat b) s.
Proof.
  intros Hab Hb. rewrite slice_inside by lia.
  rewrite !Z.min_l by lia.
  replace (Z.to_nat b) with (Z.to_nat a + (Z.to_nat b - Z.to_nat a))%nat at 2
    by lia.
  rewrite firstn_plus. reflexivity.
Qed.

Lemma firstn_sliceFrom (s : str) (a : Z) :
  0 <= a <= len s -> firstn (Z.to_nat a) s ++ sliceFrom s a = s.
Proof.
  intros Ha. unfold sliceFrom. rewrite firstn_slice by lia.
  apply firstn_all2. unfold len. lia.
Qed.

(** The comparison of [findEndOfMath] is a prefix test on the rest. *)
Lemma slice_eqb_occurs (delimiter text : str) (index : Z) :
  0 <= index ->
  str_eqb (slice text index (index + len delimiter)) delimiter
  = startsWith delimiter (skipn (Z.to_nat index) text).
Proof.
  intros Hi. pose proof (len_nonneg delimiter) as Hd.
  pose proof (len_nonneg text) as Ht.
  rewrite slice_inside by lia. rewrite startsWith_firstn.
  destruct (Z.le_gt_cases index (len text)) as [Hle|Hgt].
  - rewrite (Z.min_l index) by lia.
    destruct (Z.le_gt_cases (index + len delimiter) (len text)) as [H1|H1].
    + rewrite Z.min_l by lia. do 2 f_equal. unfold len in *. lia.
    + rewrite Z.min_r by lia.
      rewrite (firstn_all2 (n := List.length delimiter)).
      * rewrite firstn_all2; [reflexivity|].
        rewrite length_skipn. unfold len in *. lia.
      * rewrite length_skipn. unfold len in *. lia.
  - rewrite !Z.min_r by lia.
    rewrite skipn_all2 by (unfold len in *; lia).
    rewrite (skipn_all2 (n := Z.to_nat index)) by (unfold len in *; lia).
    rewrite !firstn_nil. reflexivity.
Qed.

Lemma charAt_skipn (text : str) (index : Z) :
  0 <= index < len text ->
  exists c, charAt text index = Some c
    /\ skipn (Z.to_nat index) text
       = c :: skipn (Z.to_nat (index + 1)) text.
Proof.
  intros H. unfold charAt.
  destruct (index <? 0) eqn:E; [apply Z.ltb_lt in E; lia|].
  destruct (nth_error text (Z.to_nat index)) as [c|] eqn:En.
  - exists c. split; [reflexivity|].
    replace (Z.to_nat (index + 1)) with (S (Z.to_nat index)) by lia.
    apply skipn_nth_cons; exact En.
  - apply nth_error_None in En. unfold len in H. lia.
Qed.

Lemma indexOfFrom_bounds (search rest : str) (k : Z) :
  indexOfFrom search rest k = -1 \/
  (k <= indexOfFrom search rest k
   /\ indexOfFrom search rest k + len search <= k + len rest).
Proof.
  revert k; induction rest as [|c rest IH]; intros k; simpl.
  - destruct (startsWith search []) eqn:E; [|left; reflexivity].
    right. apply startsWith_len in E. lia.
  - destruct (startsWith search (c :: rest)) eqn:E.
    + right. apply startsWith_len in E. lia.
    + destruct (IH (k + 1)) as [H|H]; [left; exact H|right].
      change (len (c :: rest)) with (Z.of_nat (S (List.length rest))).
      unfold len in *. lia.
Qed.

Lemma indexOf_bounds (s search : str) (position : Z) :
  0 <= position <= len s ->
  indexOf s search position = -1 \/
  (position <= indexOf s search position
   /\ indexOf s search position + len search <= len s).
Proof.
  intros H. unfold indexOf.
  rewrite Z.max_l, Z.min_l by lia.
  destruct (indexOfFrom_bounds search (skipn (Z.to_nat position) s) position)
    as [E|E]; [left; exact E|right].
  unfold len in *. rewrite length_skipn in E. lia.
Qed.

(** ** The delimiter matcher *)

Lemma skipn_succ_tail (text : str) (n : nat) :
  skipn (S n) text = tl (skipn n text).
Proof.
  revert text; induction n as [|n IH]; intros [|c text]; auto.
  change (skipn (S (S n)) (c :: text)) with (skipn (S n) text).
  rewrite IH. reflexivity.
Qed.

(** The loop computes the first matching scan position when it is given
    more fuel than there are units left. *)
Lemma findEndOfMath_loop_enough (fuel : nat) (delimiter text : str)
    (index braceLevel : Z) :
  0 <= index ->
  (Z.to_nat (len text - index) < fuel)%nat ->
  findEndOfMath_loop fuel delimiter text index braceLevel =
  Some match find (matchesAt delimiter text)
               (scanPositions (skipn (Z.to_nat index) text) index braceLevel)
       with
       | Some pd => fst pd
       | None => -1
       end.
Proof.
  revert index braceLevel.
  induction fuel as [|fuel IH]; intros index braceLevel Hi Hf; [lia|].
  cbn [findEndOfMath_loop].
  destruct (index <? len text) eqn:Elt.
  - apply Z.ltb_lt in Elt.
    destruct (charAt_skipn text index) as (c & Hc & Hs); [lia|].
    rewrite Hc, Hs. cbn [scanPositions find is_char].
    unfold matchesAt at 1. cbn [fst snd]. unfold occursAt.
    rewrite slice_eqb_occurs by lia. rewrite Hs.
    destruct ((braceLevel <=? 0) && startsWith delimiter _) eqn:Em;
      [reflexivity|].
    assert (Hf1 : (Z.to_nat (len text - (index + 1)) < fuel)%nat) by lia.
    assert (Hf2 : (Z.to_nat (len text - (index + 2)) < fuel)%nat) by lia.
    destruct (Ascii.eqb c backslash).
    + replace (index + 1 + 1) with (index + 2) by lia.
      rewrite IH by lia.
      replace (Z.to_nat (index + 2)) with (S (Z.to_nat (index + 1))) by lia.
      rewrite skipn_succ_tail.
      destruct (skipn (Z.to_nat (index + 1)) text); reflexivity.
    + destruct (Ascii.eqb c lbrace); [rewrite IH by lia; reflexivity|].
      destruct (Ascii.eqb c rbrace); rewrite IH by lia; reflexivity.
  - apply Z.ltb_ge in Elt.
    rewrite skipn_all2 by (unfold len in *; lia). reflexivity.
Qed.

Lemma findEndOfMath_eq_firstMatch (delimiter text : str) (startIndex : Z) :
  0 <= startIndex ->
  findEndOfMath delimiter text startIndex
  = firstMatch delimiter text startIndex.
Proof.
  intros H. unfold findEndOfMath, firstMatch.
  rewrite findEndOfMath_loop_enough by lia. reflexivity.
Qed.

Lemma findEndOfMath_loop_bounds (fuel : nat) (delimiter text : str)
    (index braceLevel r : Z) :
  0 <= index ->
  findEndOfMath_loop fuel delimiter text index braceLevel = Some r ->
  r = -1 \/ (index <= r < len text /\ r + len delimiter <= len text).
Proof.
  revert index braceLevel.
  induction fuel as [|fuel IH]; intros index braceLevel Hi; [discriminate|].
  cbn [findEndOfMath_loop].
  destruct (index <? len text) eqn:Elt;
    [|intros E; inversion E; left; reflexivity].
  apply Z.ltb_lt in Elt.
  destruct ((braceLevel <=? 0) && str_eqb _ delimiter) eqn:Em.
  - intros E; inversion E; subst r. right.
    apply andb_true_iff in Em as [_ Em].
    rewrite slice_eqb_occurs in Em by lia.
    apply startsWith_len in Em. unfold len in *.
    rewrite length_skipn in Em. lia.
  - assert (Hstep : forall k d, index < k ->
        findEndOfMath_loop fuel delimiter text k d = Some r ->
        r = -1 \/ (index <= r < len text /\ r + len delimiter <= len text)).
    { intros k d Hk E. apply IH in E; [|lia].
      destruct E as [E|E]; [left; exact E|right; lia]. }
    destruct (is_char backslash _); [apply Hstep; lia|].
    destruct (is_char lbrace _); [apply Hstep; lia|].
    destruct (is_char rbrace _); apply Hstep; lia.
Qed.

Lemma findEndOfMath_bounds (delimiter text : str) (startIndex : Z) :
  0 <= startIndex ->
  findEndOfMath delimiter text startIndex = -1 \/
  (startIndex <= findEndOfMath delimiter text startIndex < len text
   /\ findEndOfMath delimiter text startIndex + len delimiter <= len text).
Proof.
  intros H. unfold findEndOfMath.
  destruct (findEndOfMath_loop _ delimiter text startIndex 0) as [r|] eqn:E;
    [|left; reflexivity].
  apply findEndOfMath_loop_bounds in E; assumption.
Qed.

(** Scan positions never lie before the offset the scan began at. *)
Lemma scanPositions_from (n : nat) :
  forall (rest : str) (pos depth : Z) (pd : Z * Z),
    (List.length rest <= n)%nat ->
    In pd (scanPositions rest pos depth) -> pos <= fst pd.
Proof.
  induction n as [|n IH]; intros [|c rest] pos depth pd Hn; simpl in *;
    try tauto; try lia.
  assert (Hrec : forall rest' k d, (List.length rest' <= n)%nat -> pos <= k ->
            In pd (scanPositions rest' k d) -> pos <= fst pd).
  { intros rest' k d Hl Hk Hin. apply IH in Hin; lia. }
  intros [<-|Hin]; [simpl; lia|].
  destruct (Ascii.eqb c backslash).
  - destruct rest as [|c' rest'']; [destruct Hin|].
    simpl in Hn. eapply Hrec; [| |exact Hin]; lia.
  - destruct (Ascii.eqb c lbrace); [eapply Hrec; [| |exact Hin]; lia|].
    destruct (Ascii.eqb c rbrace); eapply Hrec; [| |exact Hin| | |exact Hin];
      lia.
Qed.

(** Past an opening brace that no closing brace follows, the depth stays
    positive. *)
Lemma scanPositions_open (n : nat) :
  forall (rest : str) (pos depth : Z) (pd : Z * Z),
    (List.length rest <= n)%nat ->
    0 < depth -> ~ In rbrace rest ->
    In pd (scanPositions rest pos depth) -> 0 < snd pd.
Proof.
  induction n as [|n IH]; intros [|c rest] pos depth pd Hn Hd Hnr; simpl in *;
    try tauto; try lia.
  intros [<-|Hin]; [simpl; lia|].
  destruct (Ascii.eqb c backslash).
  - destruct rest as [|c' rest'']; [destruct Hin|].
    simpl in Hn, Hnr. eapply IH; [| |  |exact Hin]; try lia. tauto.
  - destruct (Ascii.eqb c lbrace);
      [eapply IH; [| | |exact Hin]; try lia; tauto|].
    destruct (Ascii.eqb c rbrace) eqn:Er.
    + apply Ascii.eqb_eq in Er. subst c. tauto.
    + eapply IH; [| | |exact Hin]; try lia; tauto.
Qed.

(** The scan from a position it reaches is the rest of the scan. *)
Lemma scanPositions_after (n : nat) :
  forall (rest : str) (pos depth p d : Z) (pd : Z * Z),
    (List.length rest <= n)%nat ->
    In (p, d) (scanPositions rest pos depth) ->
    In pd (scanPositions rest pos depth) ->
    p < fst pd ->
    In pd (scanPositions (skipn (Z.to_nat (p - pos)) rest) p d).
Proof.
  induction n as [|n IH]; intros [|c rest] pos depth p d pd Hn Hp Hpd Hlt;
    try (destruct Hp; fail); [simpl in Hn; lia|].
  cbn [scanPositions] in Hp, Hpd. destruct Hp as [Hp|Hp].
  - inversion Hp; subst. rewrite Z.sub_diag. exact Hpd.
  - assert (Hrec : forall r' k dep,
        (List.length r' <= n)%nat -> pos < k ->
        skipn (Z.to_nat (k - pos)) (c :: rest) = r' ->
        In (p, d) (scanPositions r' k dep) ->
        (pos, depth) = pd \/ In pd (scanPositions r' k dep) ->
        In pd (scanPositions (skipn (Z.to_nat (p - pos)) (c :: rest)) p d)).
    { intros r' k dep Hl Hk Hs H1 [H2|H2].
      - pose proof (scanPositions_from _ _ _ _ _ (Nat.le_refl _) H1) as Hge.
        subst pd. cbn [fst] in *. lia.
      - pose proof (scanPositions_from _ _ _ _ _ (Nat.le_refl _) H1) as Hge.
        cbn [fst] in Hge.
        specialize (IH r' k dep p d pd Hl H1 H2 Hlt).
        replace (skipn (Z.to_nat (p - pos)) (c :: rest))
          with (skipn (Z.to_nat (p - k)) r'); [exact IH|].
        rewrite <- Hs, skipn_skipn. f_equal. lia. }
    simpl in Hn.
    destruct (Ascii.eqb c backslash).
    + destruct rest as [|c' rest'']; [destruct Hp|]. simpl in Hn.
      apply (Hrec rest'' (pos + 2) depth); try assumption; try lia.
      replace (pos + 2 - pos) with 2 by lia. reflexivity.
    + assert (Hone : skipn (Z.to_nat (pos + 1 - pos)) (c :: rest) = rest)
        by (replace (pos + 1 - pos) with 1 by lia; reflexivity).
      destruct (Ascii.eqb c lbrace);
        [apply (Hrec rest (pos + 1) (depth + 1)); try assumption; lia|].
      destruct (Ascii.eqb c rbrace);
        [apply (Hrec rest (pos + 1) (depth - 1)); try assumption; lia|].
      apply (Hrec rest (pos + 1) depth); try assumption; lia.
Qed.

(** C3, as amended. For every text, right-delimiter token and start offset
    that is not negative, [findEndOfMath] returns the first scan position with brace depth at
    most zero at which the token occurs, where the scan goes unit by unit, a
    backslash skips the unit after it, an opening brace raises and a closing
    brace lowers the depth; it returns [-1] exactly when no scan position is
    such a match.  In particular it returns [-1] when the token occurs only
    at positions of positive depth, as it does when the scan has found no
    match up to an opening brace, read at a depth that is not negative, that
    no closing brace follows. *)
Theorem findEndOfMath_first_match (delimiter text : str) (startIndex : Z) :
  0 <= startIndex ->
  findEndOfMath delimiter text startIndex
  = firstMatch delimiter text startIndex
  /\ (findEndOfMath delimiter text startIndex = -1 <->
      forall pd,
        In pd (scanPositions (skipn (Z.to_nat startIndex) text) startIndex 0) ->
        matchesAt delimiter text pd = false)
  /\ ((forall pd,
        In pd (scanPositions (skipn (Z.to_nat startIndex) text) startIndex 0) ->
        occursAt delimiter text (fst pd) = true -> 0 < snd pd) ->
      findEndOfMath delimiter text startIndex = -1)
  /\ (forall p d inside,
        In (p, d)
           (scanPositions (skipn (Z.to_nat startIndex) text) startIndex 0) ->
        0 <= d ->
        skipn (Z.to_nat p) text = lbrace :: inside ->
        ~ In rbrace inside ->
        (forall pd,
           In pd
              (scanPositions (skipn (Z.to_nat startIndex) text) startIndex 0) ->
           fst pd <= p -> matchesAt delimiter text pd = false) ->
        findEndOfMath delimiter text startIndex = -1).
Proof.
  intros H0.
  assert (Hiff : findEndOfMath delimiter text startIndex = -1 <->
      forall pd,
        In pd (scanPositions (skipn (Z.to_nat startIndex) text) startIndex 0) ->
        matchesAt delimiter text pd = false).
  { rewrite findEndOfMath_eq_firstMatch by exact H0. unfold firstMatch.
    destruct (find _ _) as [pd|] eqn:Ef.
    - apply find_some in Ef as [Hin Hm]. split.
      + intros E.
        apply (scanPositions_from _ _ _ _ _ (Nat.le_refl _)) in Hin. lia.
      + intros Hall. rewrite (Hall _ Hin) in Hm. discriminate.
    - split; [|reflexivity]. intros _ pd Hin.
      exact (find_none _ _ Ef _ Hin). }
  split; [apply findEndOfMath_eq_firstMatch; exact H0|].
  split; [exact Hiff|]. split.
  - intros Hall. apply Hiff. intros pd Hin. unfold matchesAt.
    destruct (occursAt delimiter text (fst pd)) eqn:Eo;
      [|apply andb_false_r].
    specialize (Hall _ Hin Eo). rewrite andb_true_r. apply Z.leb_gt. lia.
  - intros p d inside Hp Hd Hs Hnr Hbefore. apply Hiff. intros pd Hin.
    destruct (Z.le_gt_cases (fst pd) p) as [Hle|Hgt];
      [exact (Hbefore _ Hin Hle)|].
    pose proof (scanPositions_from _ _ _ _ _ (Nat.le_refl _) Hp) as Hge.
    cbn [fst] in Hge.
    pose proof (scanPositions_after _ _ _ _ _ _ _ (Nat.le_refl _) Hp Hin)
      as Hafter.
    rewrite skipn_skipn in Hafter.
    replace (Z.to_nat (p - startIndex) + Z.to_nat startIndex)%nat
      with (Z.to_nat p) in Hafter by lia.
    rewrite Hs in Hafter. specialize (Hafter ltac:(lia)).
    cbn [scanPositions] in Hafter.
    change (Ascii.eqb lbrace backslash) with false in Hafter.
    change (Ascii.eqb lbrace lbrace) with true in Hafter. cbv iota in Hafter.
    destruct Hafter as [Heq|Hafter]; [subst pd; cbn [fst] in Hgt; lia|].
    apply (scanPositions_open _ _ _ _ _ (Nat.le_refl _)) in Hafter;
      [|lia|exact Hnr].
    unfold matchesAt. replace (snd pd <=? 0) with false; [reflexivity|].
    symmetry. apply Z.leb_gt. lia.
Qed.

Lemma findEndOfMath_first_match_witness :
  0 <= 2
  /\ findEndOfMath (lit "$$") (lit "$$ {$$} \$$ $$ b") 2
     = firstMatch (lit "$$") (lit "$$ {$$} \$$ $$ b") 2
  /\ firstMatch (lit "$$") (lit "$$ {$$} \$$ $$ b") 2 = 12
  /\ findEndOfMath (lit "$$") (lit "a {b $$ c $$") 0 = -1.
Proof.
  split; [lia|]. split; [|split; [reflexivity|]].
  - apply (findEndOfMath_first_match (lit "$$") (lit "$$ {$$} \$$ $$ b") 2).
    lia.
  - apply (proj2 (proj2 (proj2
             (findEndOfMath_first_match (lit "$$") (lit "a {b $$ c $$") 0
                ltac:(lia))))
           2 0 (lit "b $$ c $$")).
    + vm_compute. tauto.
    + lia.
    + reflexivity.
    + vm_compute. intros H. repeat (destruct H as [H|H]; [discriminate|]).
      exact H.
    + intros pd Hin Hle. vm_compute in Hin.
      repeat (destruct Hin as [Hin|Hin];
              [subst pd; try reflexivity; cbn [fst] in Hle; lia|]).
      destruct Hin.
Defined.

(** C3 as stated fails in its last clause: in [}{$$] the token occurs
    only after an opening brace that no closing brace follows, inside a
    group that is never closed, and the matcher still finds it, at offset 2:
    the closing brace before the group has taken the counter to [-1], and the
    opening brace brings it back to zero. *)
Lemma findEndOfMath_open_group_counterexample :
  skipn 1 (lit "}{$$") = lbrace :: lit "$$"
  /\ ~ In rbrace (lit "$$")
  /\ (forall pos,
        0 <= pos -> occursAt (lit "$$") (lit "}{$$") pos = true -> 1 < pos)
  /\ findEndOfMath (lit "$$") (lit "}{$$") 0 = 2
  /\ findEndOfMath (lit "$$") (lit "}{$$") 0 <> -1.
Proof.
  split; [reflexivity|]. split.
  - intros [H|[H|[]]]; discriminate.
  - split; [|split; [reflexivity|discriminate]].
    intros pos H0 Ho.
    destruct (Z.le_gt_cases pos 1) as [Hle|Hgt]; [|lia].
    assert (Hpos : pos = 0 \/ pos = 1) by lia.
    destruct Hpos; subst pos; discriminate.
Qed.

(** The depth is the running counter, not the nesting seen from the token:
    after a stray closing brace an opening brace brings the counter back to
    zero, and a token inside that open group is a match. *)
Lemma findEndOfMath_after_stray_close :
  findEndOfMath (lit "$$") (lit "}{$$") 0 = 2
  /\ findEndOfMath (lit "$$") (lit "{$$") 0 = -1.
Proof. split; reflexivity. Qed.

(** ** The segmenter *)

Lemma rawText_app (a b : list segment) :
  rawText (a ++ b) = rawText a ++ rawText b.
Proof. unfold rawText. rewrite map_app, concat_app. reflexivity. Qed.

Lemma rawText_one (s : segment) : rawText [s] = raw s.
Proof. unfold rawText; simpl. apply app_nil_r. Qed.

(** Invariant of the [while] loop: [finalData] spells the text up to
    [currIndex]. *)
Lemma splitAtDelimiters_while_raw (fuel : nat)
    (text leftDelim rightDelim : str) (style : mathstyle) :
  forall (lookingForLeft : bool) (currIndex : Z) (finalData : list segment)
         (before : str) (currIndex' : Z) (finalData' : list segment),
    0 <= currIndex <= len text ->
    rawText finalData = before ++ firstn (Z.to_nat currIndex) text ->
    splitAtDelimiters_while fuel text leftDelim rightDelim style
      lookingForLeft currIndex finalData = Some (currIndex', finalData') ->
    0 <= currIndex' <= len text
    /\ rawText finalData' = before ++ firstn (Z.to_nat currIndex') text.
Proof.
  induction fuel as [|fuel IH];
    intros lookingForLeft currIndex finalData before currIndex' finalData'
           Hc Hraw; [discriminate|].
  cbn [splitAtDelimiters_while].
  pose proof (len_nonneg leftDelim) as Hl.
  pose proof (len_nonneg rightDelim) as Hr.
  destruct lookingForLeft.
  - destruct (indexOf text leftDelim currIndex =? -1) eqn:E.
    + intros E'; inversion E'; subst. auto.
    + apply Z.eqb_neq in E.
      destruct (indexOf_bounds text leftDelim currIndex Hc) as [B|B];
        [contradiction|].
      apply IH; [lia|].
      rewrite rawText_app, rawText_one, Hraw. cbn [raw].
      rewrite <- app_assoc, firstn_slice by lia. reflexivity.
  - destruct (findEndOfMath rightDelim text (currIndex + len leftDelim) =? -1)
      eqn:E.
    + intros E'; inversion E'; subst. auto.
    + apply Z.eqb_neq in E.
      destruct (findEndOfMath_bounds rightDelim text (currIndex + len leftDelim))
        as [B|B]; [lia|contradiction|].
      apply IH; [lia|].
      rewrite rawText_app, rawText_one, Hraw. cbn [raw].
      rewrite <- app_assoc, firstn_slice by lia. reflexivity.
Qed.

Lemma splitAtDelimiters_text_raw (fuel : nat)
    (text leftDelim rightDelim : str) (style : mathstyle)
    (finalData finalData' : list segment) :
  splitAtDelimiters_text fuel text leftDelim rightDelim style finalData
  = Some finalData' ->
  rawText finalData' = rawText finalData ++ text.
Proof.
  unfold splitAtDelimiters_text.
  pose proof (len_nonneg text) as Ht.
  destruct (indexOf text leftDelim 0 =? -1) eqn:E.
  - destruct (splitAtDelimiters_while _ _ _ _ _ _ _ _) as [[c fd]|] eqn:Ew;
      [|discriminate].
    intros E'; inversion E'; subst.
    apply (splitAtDelimiters_while_raw _ _ _ _ _ _ _ _ (rawText finalData))
      in Ew as [Hc Hraw]; [|lia|simpl; rewrite app_nil_r; reflexivity].
    rewrite rawText_app, rawText_one, Hraw. cbn [raw].
    rewrite <- app_assoc, firstn_sliceFrom by lia. reflexivity.
  - apply Z.eqb_neq in E.
    destruct (indexOf_bounds text leftDelim 0) as [B|B]; [lia|contradiction|].
    destruct (splitAtDelimiters_while _ _ _ _ _ _ _ _) as [[c fd]|] eqn:Ew;
      [|discriminate].
    intros E'; inversion E'; subst.
    pose proof (len_nonneg leftDelim).
    apply (splitAtDelimiters_while_raw _ _ _ _ _ _ _ _ (rawText finalData))
      in Ew as [Hc Hraw]; [|lia|].
    + rewrite rawText_app, rawText_one, Hraw. cbn [raw].
      rewrite <- app_assoc, firstn_sliceFrom by lia. reflexivity.
    + rewrite rawText_app, rawText_one. cbn [raw].
      rewrite <- (firstn_slice text 0) by lia. reflexivity.
Qed.

Lemma splitAtDelimiters_for_raw (fuel : nat) (leftDelim rightDelim : str)
    (style : mathstyle) (startData : list segment) :
  forall finalData finalData',
    splitAtDelimiters_for fuel startData leftDelim rightDelim style finalData
    = Some finalData' ->
    rawText finalData' = rawText finalData ++ rawText startData.
Proof.
  induction startData as [|seg rest IH]; intros finalData finalData'; simpl.
  - intros E; inversion E. rewrite app_nil_r. reflexivity.
  - destruct seg as [text|d r s].
    + destruct (splitAtDelimiters_text _ _ _ _ _ _) as [fd|] eqn:Et;
        [|discriminate].
      intros E. apply IH in E. apply splitAtDelimiters_text_raw in Et.
      rewrite E, Et, <- app_assoc. reflexivity.
    + intros E. apply IH in E.
      rewrite E, rawText_app, rawText_one, <- app_assoc. reflexivity.
Qed.

Lemma splitAtDelimiters_raw (fuel : nat) (startData data : list segment)
    (leftDelim rightDelim : str) (style : mathstyle) :
  splitAtDelimiters fuel startData leftDelim rightDelim style = Some data ->
  rawText data = rawText startData.
Proof. intros E. apply splitAtDelimiters_for_raw in E. exact E. Qed.

Lemma splitWithDelimiters_for_raw (fuel : nat) (style : mathstyle)
    (pairs : list (str * str)) :
  forall data data',
    splitWithDelimiters_for fuel data pairs style = Some data' ->
    rawText data' = rawText data.
Proof.
  induction pairs as [|delimiter rest IH]; intros data data'; simpl.
  - intros E; inversion E; reflexivity.
  - destruct (splitAtDelimiters _ _ _ _ _) as [d|] eqn:Ep; [|discriminate].
    intros E. apply IH in E. apply splitAtDelimiters_raw in Ep. congruence.
Qed.

Lemma splitWithDelimiters_raw (fuel : nat) (text : str)
    (delimiters : Delimiters) (data : list segment) :
  splitWithDelimiters fuel text delimiters = Some data -> rawText data = text.
Proof.
  unfold splitWithDelimiters.
  destruct (splitWithDelimiters_for _ _ (inline _) _) as [d|] eqn:Ei;
    [|discriminate].
  intros E. apply splitWithDelimiters_for_raw in E, Ei.
  rewrite E, Ei. apply rawText_one.
Qed.

(** *** Termination of the segmenter loop *)

Lemma properPair_len (l r : str) :
  properPair (l, r) = true -> 0 < len l + len r.
Proof.
  unfold properPair, len; destruct l, r; simpl; try discriminate; lia.
Qed.

Lemma splitAtDelimiters_while_terminates (fuel : nat)
    (text leftDelim rightDelim : str) (style : mathstyle) :
  0 < len leftDelim + len rightDelim ->
  forall (lookingForLeft : bool) (currIndex : Z) (finalData : list segment),
    0 <= currIndex <= len text ->
    (Z.to_nat (whileMeasure text lookingForLeft currIndex) <= fuel)%nat ->
    exists r,
      splitAtDelimiters_while fuel text leftDelim rightDelim style
        lookingForLeft currIndex finalData = Some r.
Proof.
  intros Hp. unfold whileMeasure.
  pose proof (len_nonneg leftDelim) as Hl.
  pose proof (len_nonneg rightDelim) as Hr.
  induction fuel as [|fuel IH]; intros lookingForLeft currIndex finalData Hc Hf.
  - destruct lookingForLeft; lia.
  - cbn [splitAtDelimiters_while]. destruct lookingForLeft.
    + destruct (indexOf text leftDelim currIndex =? -1) eqn:E; [eauto|].
      apply Z.eqb_neq in E.
      destruct (indexOf_bounds text leftDelim currIndex Hc) as [B|B];
        [contradiction|].
      apply IH; lia.
    + destruct (findEndOfMath rightDelim text (currIndex + len leftDelim)
                =? -1) eqn:E; [eauto|].
      apply Z.eqb_neq in E.
      destruct (findEndOfMath_bounds rightDelim text
                  (currIndex + len leftDelim)) as [B|B]; [lia|contradiction|].
      apply IH; lia.
Qed.

Lemma splitAtDelimiters_text_terminates (fuel : nat)
    (text leftDelim rightDelim : str) (style : mathstyle)
    (finalData : list segment) :
  0 < len leftDelim + len rightDelim ->
  (2 * List.length text + 3 <= fuel)%nat ->
  exists r,
    splitAtDelimiters_text fuel text leftDelim rightDelim style finalData
    = Some r.
Proof.
  intros Hp Hf. unfold splitAtDelimiters_text.
  pose proof (len_nonneg text) as Ht.
  assert (Hw : forall lfl c fd, 0 <= c <= len text ->
            exists r, splitAtDelimiters_while fuel text leftDelim rightDelim
                        style lfl c fd = Some r).
  { intros lfl c fd Hc.
    apply splitAtDelimiters_while_terminates; [exact Hp|exact Hc|].
    unfold whileMeasure, len in *. destruct lfl; lia. }
  destruct (indexOf text leftDelim 0 =? -1) eqn:E.
  - destruct (Hw true 0 finalData) as [[c fd] ->]; [lia|eauto].
  - apply Z.eqb_neq in E.
    destruct (indexOf_bounds text leftDelim 0) as [B|B]; [lia|contradiction|].
    pose proof (len_nonneg leftDelim).
    destruct (Hw false (indexOf text leftDelim 0)
                (finalData ++ [TextSeg (slice text 0 (indexOf text leftDelim 0))]))
      as [[c fd] ->]; [lia|eauto].
Qed.

(** Every piece is at most as long as the text the pieces spell. *)
Lemma raw_length_le (seg : segment) (data : list segment) :
  In seg data -> (List.length (raw seg) <= List.length (rawText data))%nat.
Proof.
  induction data as [|s data IH]; [intros []|].
  unfold rawText in *. simpl. rewrite length_app.
  intros [->|Hin]; [lia|]. specialize (IH Hin). lia.
Qed.

Lemma splitAtDelimiters_for_terminates (fuel : nat) (leftDelim rightDelim : str)
    (style : mathstyle) (bound : nat) (startData : list segment) :
  0 < len leftDelim + len rightDelim ->
  (2 * bound + 3 <= fuel)%nat ->
  (forall seg, In seg startData -> (List.length (raw seg) <= bound)%nat) ->
  forall finalData,
    exists r,
      splitAtDelimiters_for fuel startData leftDelim rightDelim style finalData
      = Some r.
Proof.
  intros Hp Hf. induction startData as [|seg rest IH]; intros Hb finalData;
    simpl; [eauto|].
  assert (Hrest : forall s, In s rest -> (List.length (raw s) <= bound)%nat)
    by (intros s Hs; apply Hb; right; exact Hs).
  destruct seg as [text|d r s]; [|apply IH; exact Hrest].
  destruct (splitAtDelimiters_text_terminates fuel text leftDelim rightDelim
              style finalData Hp) as [fd ->].
  - specialize (Hb (TextSeg text) (or_introl eq_refl)). simpl in Hb. lia.
  - apply IH; exact Hrest.
Qed.

Lemma splitWithDelimiters_for_terminates (fuel : nat) (style : mathstyle)
    (text : str) (pairs : list (str * str)) :
  forallb properPair pairs = true ->
  (2 * List.length text + 3 <= fuel)%nat ->
  forall data, rawText data = text ->
    exists r, splitWithDelimiters_for fuel data pairs style = Some r.
Proof.
  intros Hp Hf. induction pairs as [|[l r] rest IH]; intros data Hraw; simpl;
    [eauto|].
  simpl in Hp. apply andb_true_iff in Hp as [Hp Hrest].
  destruct (splitAtDelimiters_for_terminates fuel l r style (List.length text)
              data (properPair_len _ _ Hp) Hf) with (finalData := @nil segment)
    as [d Ed].
  - intros seg Hin. rewrite <- Hraw. apply raw_length_le; exact Hin.
  - unfold splitAtDelimiters. rewrite Ed. apply IH; [exact Hrest|].
    apply splitAtDelimiters_for_raw in Ed. rewrite Ed. exact Hraw.
Qed.

Lemma splitWithDelimiters_terminates (fuel : nat) (text : str)
    (delimiters : Delimiters) :
  properDelimiters delimiters = true ->
  (2 * List.length text + 3 <= fuel)%nat ->
  exists data, splitWithDelimiters fuel text delimiters = Some data.
Proof.
  intros Hp Hf. apply andb_true_iff in Hp as [Hi Hd].
  unfold splitWithDelimiters.
  destruct (splitWithDelimiters_for_terminates fuel textstyle text _ Hi Hf
              [TextSeg text] (rawText_one _)) as [d Ed].
  rewrite Ed. apply (splitWithDelimiters_for_terminates fuel _ text); auto.
  apply splitWithDelimiters_for_raw in Ed. rewrite Ed. apply rawText_one.
Qed.

(** C1. For every input text and every delimiter configuration, the raw
    fields of the segments that [splitWithDelimiters] produces (over all
    inline and display passes), concatenated in order, are the input text;
    and the segments are produced, with fuel for twice the length of the
    text plus three iterations, whenever no pair has both tokens empty. *)
Theorem splitWithDelimiters_roundtrip (text : str) (delimiters : Delimiters) :
  (forall fuel data,
     splitWithDelimiters fuel text delimiters = Some data ->
     List.concat (map raw data) = text)
  /\ (properDelimiters delimiters = true ->
      forall fuel, (2 * List.length text + 3 <= fuel)%nat ->
      exists data,
        splitWithDelimiters fuel text delimiters = Some data
        /\ List.concat (map raw data) = text).
Proof.
  split.
  - intros fuel data E. exact (splitWithDelimiters_raw _ _ _ _ E).
  - intros Hp fuel Hf.
    destruct (splitWithDelimiters_terminates fuel text delimiters Hp Hf)
      as [data E].
    exists data. split; [exact E|exact (splitWithDelimiters_raw _ _ _ _ E)].
Qed.

Lemma splitWithDelimiters_roundtrip_witness :
  splitWithDelimiters 50 Sample.sampleText (delimiters (TeX defaultOptions))
  = Some [TextSeg (lit "a ");
          MathSeg (lit "x") (lit "\(x\)") textstyle;
          TextSeg (lit " ");
          MathSeg (lit " {$$} ") (lit "$$ {$$} $$") displaystyle;
          TextSeg (lit " "); TextSeg (lit "\[ b")]
  /\ properDelimiters (delimiters (TeX defaultOptions)) = true
  /\ (2 * List.length Sample.sampleText + 3 <= 50)%nat
  /\ List.concat
       (map raw [TextSeg (lit "a ");
                 MathSeg (lit "x") (lit "\(x\)") textstyle;
                 TextSeg (lit " ");
                 MathSeg (lit " {$$} ") (lit "$$ {$$} $$") displaystyle;
                 TextSeg (lit " "); TextSeg (lit "\[ b")])
     = Sample.sampleText.
Proof.
  split; [reflexivity|]. split; [reflexivity|]. split; [vm_compute; lia|].
  apply (proj1 (splitWithDelimiters_roundtrip Sample.sampleText
                  (delimiters (TeX defaultOptions))) 50%nat).
  reflexivity.
Defined.

(** C4, as amended. For the input [a \( x b] (no closing [\)]) with the
    inline pair [\(], [\)], the segmenter yields the flushed prefix text
    segment [a ] followed by one trailing text segment [\( x b], which keeps
    the unmatched left delimiter; there is no math segment and the segments
    spell the whole input. *)
Theorem unmatched_left_delimiter (fuel : nat) :
  splitWithDelimiters (S fuel) (lit "a \( x b") Sample.inlineOnly
  = Some [TextSeg (lit "a "); TextSeg (lit "\( x b")]
  /\ existsb isMath [TextSeg (lit "a "); TextSeg (lit "\( x b")] = false
  /\ List.concat (map raw [TextSeg (lit "a "); TextSeg (lit "\( x b")])
     = lit "a \( x b".
Proof. repeat split. Qed.

(** C4 as stated fails: no amount of fuel yields the trailing text segment
    [ x b], which would drop the two units of the left delimiter. *)
Lemma unmatched_left_delimiter_keeps_token :
  ~ exists fuel,
      splitWithDelimiters fuel (lit "a \( x b") Sample.inlineOnly
      = Some [TextSeg (lit "a "); TextSeg (lit " x b")].
Proof. intros [[|fuel] E]; discriminate. Qed.

(** *** More fuel changes nothing once the loop has returned *)

Lemma splitAtDelimiters_while_mono (fuel fuel' : nat)
    (text leftDelim rightDelim : str) (style : mathstyle) :
  (fuel <= fuel')%nat ->
  forall lookingForLeft currIndex finalData r,
    splitAtDelimiters_while fuel text leftDelim rightDelim style
      lookingForLeft currIndex finalData = Some r ->
    splitAtDelimiters_while fuel' text leftDelim rightDelim style
      lookingForLeft currIndex finalData = Some r.
Proof.
  revert fuel'. induction fuel as [|fuel IH]; intros [|fuel'] Hle lfl c fd r;
    try discriminate; try lia.
  cbn [splitAtDelimiters_while].
  destruct lfl.
  - destruct (_ =? -1); [auto|]. apply IH; lia.
  - destruct (_ =? -1); [auto|]. apply IH; lia.
Qed.

Lemma splitAtDelimiters_for_mono (fuel fuel' : nat)
    (leftDelim rightDelim : str) (style : mathstyle)
    (startData : list segment) :
  (fuel <= fuel')%nat ->
  forall finalData r,
    splitAtDelimiters_for fuel startData leftDelim rightDelim style finalData
    = Some r ->
    splitAtDelimiters_for fuel' startData leftDelim rightDelim style finalData
    = Some r.
Proof.
  intros Hle. induction startData as [|seg rest IH]; intros fd r; simpl;
    [auto|].
  destruct seg as [text|d rw s]; [|apply IH].
  unfold splitAtDelimiters_text.
  destruct (indexOf text leftDelim 0 =? -1).
  - destruct (splitAtDelimiters_while fuel _ _ _ _ _ _ _) as [[c fd1]|] eqn:E;
      [|discriminate].
    rewrite (splitAtDelimiters_while_mono _ _ _ _ _ _ Hle _ _ _ _ E).
    apply IH.
  - destruct (splitAtDelimiters_while fuel _ _ _ _ _ _ _) as [[c fd1]|] eqn:E;
      [|discriminate].
    rewrite (splitAtDelimiters_while_mono _ _ _ _ _ _ Hle _ _ _ _ E).
    apply IH.
Qed.

Lemma splitWithDelimiters_for_mono (fuel fuel' : nat) (style : mathstyle)
    (pairs : list (str * str)) :
  (fuel <= fuel')%nat ->
  forall data r,
    splitWithDelimiters_for fuel data pairs style = Some r ->
    splitWithDelimiters_for fuel' data pairs style = Some r.
Proof.
  intros Hle. induction pairs as [|delimiter rest IH]; intros data r; simpl;
    [auto|].
  unfold splitAtDelimiters.
  destruct (splitAtDelimiters_for fuel _ _ _ _ _) as [d|] eqn:E;
    [|discriminate].
  rewrite (splitAtDelimiters_for_mono _ _ _ _ _ _ Hle _ _ E). apply IH.
Qed.

Lemma splitWithDelimiters_mono (fuel fuel' : nat) (text : str)
    (delimiters : Delimiters) (data : list segment) :
  (fuel <= fuel')%nat ->
  splitWithDelimiters fuel text delimiters = Some data ->
  splitWithDelimiters fuel' text delimiters = Some data.
Proof.
  intros Hle. unfold splitWithDelimiters.
  destruct (splitWithDelimiters_for fuel _ (inline _) _) as [d|] eqn:E;
    [|discriminate].
  rewrite (splitWithDelimiters_for_mono _ _ _ _ Hle _ _ E).
  apply splitWithDelimiters_for_mono; exact Hle.
Qed.

(** *** The loop that never ends

    With both tokens empty the loop finds a left delimiter and a right
    delimiter at the same offset over and over. *)
Lemma indexOf_empty (text : str) (position : Z) :
  0 <= position <= len text -> indexOf text [] position = position.
Proof.
  intros H. unfold indexOf. rewrite Z.max_l, Z.min_l by lia.
  destruct (skipn (Z.to_nat position) text); reflexivity.
Qed.

Lemma findEndOfMath_empty (text : str) (startIndex : Z) :
  0 <= startIndex < len text -> findEndOfMath [] text startIndex = startIndex.
Proof.
  intros H. unfold findEndOfMath. cbn [findEndOfMath_loop].
  destruct (startIndex <? len text) eqn:E; [|apply Z.ltb_ge in E; lia].
  rewrite slice_eqb_occurs by lia. reflexivity.
Qed.

Lemma splitAtDelimiters_while_empty_pair (fuel : nat) (text : str)
    (style : mathstyle) :
  forall lookingForLeft currIndex finalData,
    0 <= currIndex < len text ->
    splitAtDelimiters_while fuel text [] [] style lookingForLeft currIndex
      finalData = None.
Proof.
  induction fuel as [|fuel IH]; intros lfl c fd Hc; [reflexivity|].
  cbn [splitAtDelimiters_while].
  change (len []) with 0. rewrite !Z.add_0_r.
  rewrite indexOf_empty, findEndOfMath_empty by lia.
  destruct (c =? -1) eqn:E; [apply Z.eqb_eq in E; lia|].
  destruct lfl; apply IH; exact Hc.
Qed.

Lemma splitAtDelimiters_empty_pair (fuel : nat) (c : ascii) (text : str)
    (style : mathstyle) (rest : list segment) :
  splitAtDelimiters fuel (TextSeg (c :: text) :: rest) [] [] style = None.
Proof.
  unfold splitAtDelimiters. cbn [splitAtDelimiters_for].
  unfold splitAtDelimiters_text.
  assert (Hl : 0 < len (c :: text))
    by (unfold len; simpl List.length; lia).
  rewrite indexOf_empty by lia. cbn [Z.eqb].
  rewrite splitAtDelimiters_while_empty_pair by lia. reflexivity.
Qed.

(** ** The tree walker *)

Lemma node_nested_ind (P : node -> Prop) :
  (forall t, P (TextNode t)) ->
  (forall nodeName id className kids,
     Forall P kids -> P (Element nodeName id className kids)) ->
  (forall d, P (Comment d)) ->
  forall n, P n.
Proof.
  intros Ht He Hc.
  fix IH 1. intros [t|nodeName id className kids|d]; [apply Ht| |apply Hc].
  apply He. induction kids as [|k kids IHk]; constructor; [apply IH|exact IHk].
Qed.

Section WalkerFacts.

#[local] Set Warnings "-notation-for-abbreviation".

Variable regexp : Type.
Variable RegExp_new : str -> option regexp.
Variable RegExp_test : regexp -> str -> bool.
Variable parseHTML : str -> list node.
Variable latexToMarkup : str -> mathstyle -> completion str.

Local Notation scanText_for' := (scanText_for parseHTML latexToMarkup).
Local Notation scanText' := (scanText regexp parseHTML latexToMarkup).
Local Notation scanElement_for' :=
  (scanElement_for regexp RegExp_test parseHTML latexToMarkup).
Local Notation scanElement' :=
  (scanElement regexp RegExp_test parseHTML latexToMarkup).
Local Notation scanElementAt' :=
  (scanElementAt regexp RegExp_test parseHTML latexToMarkup).
Local Notation renderMathInElement' :=
  (renderMathInElement regexp RegExp_new RegExp_test parseHTML latexToMarkup).
Local Notation shouldRender' := (shouldRender regexp RegExp_test).
Local Notation options' := (options regexp).
Local Notation segmentNode' := (segmentNode parseHTML latexToMarkup).
Local Notation reachable' := (reachableNodes regexp RegExp_test).
Local Notation loopReturns' :=
  (loopReturns regexp RegExp_test parseHTML latexToMarkup).
Local Notation kidsReturn' :=
  (kidsReturn regexp RegExp_test parseHTML latexToMarkup).
Local Notation dynOptions' := (dynOptions regexp).
Local Notation scanText_dyn' := (scanText_dyn regexp parseHTML latexToMarkup).
Local Notation shouldRender_dyn' := (shouldRender_dyn regexp RegExp_test).
Local Notation scanElement_for_dyn' :=
  (scanElement_for_dyn regexp RegExp_test parseHTML latexToMarkup).
Local Notation scanElementAt_dyn' :=
  (scanElementAt_dyn regexp RegExp_test parseHTML latexToMarkup).
Local Notation renderMathInElement_dyn' :=
  (renderMathInElement_dyn regexp RegExp_new RegExp_test parseHTML
     latexToMarkup).

Lemma scanText_for_map (data : list segment) :
  forall fragment,
    scanText_for' data fragment = fragment ++ map segmentNode' data.
Proof.
  induction data as [|seg rest IH]; intros fragment; simpl.
  - rewrite app_nil_r; reflexivity.
  - destruct seg as [d|d rw s]; simpl.
    + rewrite IH, <- app_assoc; reflexivity.
    + destruct (latexToMarkup d s); rewrite IH, <- app_assoc; reflexivity.
Qed.

(** Every pass keeps at least as many segments as it was given. *)
Lemma splitAtDelimiters_while_length (fuel : nat) (text l r : str)
    (style : mathstyle) :
  forall lookingForLeft currIndex finalData currIndex' finalData',
    splitAtDelimiters_while fuel text l r style lookingForLeft currIndex
      finalData = Some (currIndex', finalData') ->
    (List.length finalData <= List.length finalData')%nat.
Proof.
  induction fuel as [|fuel IH]; intros lfl c fd c' fd'; [discriminate|].
  cbn [splitAtDelimiters_while].
  destruct lfl; destruct (_ =? -1);
    try (intros E; inversion E; subst; lia);
    intros E; apply IH in E; rewrite length_app in E; simpl in E; lia.
Qed.

Lemma splitAtDelimiters_text_length (fuel : nat) (text l r : str)
    (style : mathstyle) (finalData out : list segment) :
  splitAtDelimiters_text fuel text l r style finalData = Some out ->
  (List.length finalData < List.length out)%nat.
Proof.
  unfold splitAtDelimiters_text.
  destruct (indexOf text l 0 =? -1).
  - destruct (splitAtDelimiters_while _ _ _ _ _ _ _ _) as [[c fd]|] eqn:E;
      [|discriminate].
    intros E'; inversion E'. apply splitAtDelimiters_while_length in E.
    rewrite length_app. simpl. lia.
  - destruct (splitAtDelimiters_while _ _ _ _ _ _ _ _) as [[c fd]|] eqn:E;
      [|discriminate].
    intros E'; inversion E'. apply splitAtDelimiters_while_length in E.
    rewrite length_app in *. simpl in *. lia.
Qed.

Lemma splitAtDelimiters_for_length (fuel : nat) (l r : str) (style : mathstyle)
    (startData : list segment) :
  forall finalData out,
    splitAtDelimiters_for fuel startData l r style finalData = Some out ->
    (List.length finalData + List.length startData <= List.length out)%nat.
Proof.
  induction startData as [|seg rest IH]; intros finalData out; simpl.
  - intros E; inversion E; lia.
  - destruct seg as [text|d rw s].
    + destruct (splitAtDelimiters_text _ _ _ _ _ _) as [fd|] eqn:E;
        [|discriminate].
      intros E'. apply IH in E'. apply splitAtDelimiters_text_length in E. lia.
    + intros E'. apply IH in E'. rewrite length_app in E'. simpl in E'. lia.
Qed.

Lemma splitWithDelimiters_for_length (fuel : nat) (style : mathstyle)
    (pairs : list (str * str)) :
  forall data out,
    splitWithDelimiters_for fuel data pairs style = Some out ->
    (List.length data <= List.length out)%nat.
Proof.
  induction pairs as [|d rest IH]; intros data out; simpl.
  - intros E; inversion E; lia.
  - unfold splitAtDelimiters.
    destruct (splitAtDelimiters_for _ _ _ _ _ _) as [d1|] eqn:E;
      [|discriminate].
    intros E'. apply IH in E'. apply splitAtDelimiters_for_length in E.
    simpl in E. lia.
Qed.

Lemma splitWithDelimiters_nonempty (fuel : nat) (text : str)
    (delimiters : Delimiters) (data : list segment) :
  splitWithDelimiters fuel text delimiters = Some data ->
  (1 <= List.length data)%nat.
Proof.
  unfold splitWithDelimiters.
  destruct (splitWithDelimiters_for _ _ (inline _) _) as [d|] eqn:E;
    [|discriminate].
  intros E'. apply splitWithDelimiters_for_length in E, E'. simpl in E. lia.
Qed.

(** The fragment of [scanText] is never empty. *)
Lemma scanText_nonempty (fuel : nat) (text : str) (opts : options')
    (frag : list node) :
  scanText' fuel text opts = Some frag -> (1 <= List.length frag)%nat.
Proof.
  unfold scanText.
  destruct (processEnvironments _ && matchesBegin text).
  - destruct (latexToMarkup text displaystyle); intros E; inversion E;
      simpl; lia.
  - destruct (splitWithDelimiters _ _ _) as [data|] eqn:Es; [|discriminate].
    intros E; inversion E. rewrite scanText_for_map. simpl.
    rewrite length_map. eapply splitWithDelimiters_nonempty; exact Es.
Qed.

Lemma scanText_mono (fuel fuel' : nat) (text : str) (opts : options')
    (frag : list node) :
  (fuel <= fuel')%nat ->
  scanText' fuel text opts = Some frag ->
  scanText' fuel' text opts = Some frag.
Proof.
  intros Hle. unfold scanText.
  destruct (processEnvironments _ && matchesBegin text); [auto|].
  destruct (splitWithDelimiters fuel _ _) as [data|] eqn:Es; [|discriminate].
  rewrite (splitWithDelimiters_mono _ _ _ _ _ Hle Es). auto.
Qed.

Lemma scanText_terminates (fuel : nat) (text : str) (opts : options') :
  properDelimiters (delimiters (TeX (given opts))) = true ->
  (2 * List.length text + 3 <= fuel)%nat ->
  exists frag, scanText' fuel text opts = Some frag.
Proof.
  intros Hp Hf. unfold scanText.
  destruct (processEnvironments _ && matchesBegin text).
  - destruct (latexToMarkup text displaystyle); eauto.
  - destruct (splitWithDelimiters_terminates fuel text _ Hp Hf) as [d ->].
    eauto.
Qed.

(** *** The child loop *)

Lemma withVisited_app (vis w : list node) r :
  withVisited (vis ++ w) r = withVisited vis (withVisited w r).
Proof. destruct r as [[out v]|]; simpl; [rewrite app_assoc|]; reflexivity. Qed.

Lemma replaceChild_app (pre cs frag : list node) (i : nat) :
  replaceChild (pre ++ cs) (List.length pre + i) frag
  = pre ++ replaceChild cs i frag.
Proof.
  unfold replaceChild.
  rewrite firstn_app_2, <- app_assoc. f_equal.
  rewrite skipn_app, skipn_all2 by lia.
  replace (S (List.length pre + i) - List.length pre)%nat with (S i) by lia.
  reflexivity.
Qed.

Lemma replaceChild_head (c : node) (post frag : list node) :
  replaceChild (c :: post) 0 frag = frag ++ post.
Proof. reflexivity. Qed.

(** The visit log is only ever appended to. *)
Lemma scanElement_for_visited (fuel : nat) (opts : options') :
  forall childNodes i visited,
    scanElement_for' fuel opts childNodes i visited
    = withVisited visited (scanElement_for' fuel opts childNodes i []).
Proof.
  induction fuel as [|fuel IH]; intros cs i vis; [reflexivity|].
  cbn [scanElement_for].
  destruct (nth_error cs i) as [[t|nodeName id className kids|d]|];
    cbn [withVisited app].
  - destruct (scanText' fuel t opts) as [frag|]; [|reflexivity].
    rewrite (IH _ _ (vis ++ _)), (IH _ _ [_]). apply withVisited_app.
  - destruct (shouldRender' opts nodeName className).
    + rewrite (IH _ _ (vis ++ _)), (IH kids _ [_]).
      destruct (scanElement_for' fuel opts kids 0 []) as [[kids' vk]|];
        [|reflexivity].
      cbn [withVisited].
      rewrite (IH _ _ ((vis ++ _) ++ _)), (IH _ _ ([_] ++ _)).
      rewrite <- withVisited_app, <- app_assoc. reflexivity.
    + rewrite (IH _ _ (vis ++ _)), (IH _ _ [_]). apply withVisited_app.
  - rewrite (IH _ _ (vis ++ _)), (IH _ _ [_]). apply withVisited_app.
  - rewrite app_nil_r. reflexivity.
Qed.

(** The loop from index [length pre] on neither reads nor changes the
    children before that index. *)
Lemma scanElement_for_prefix (fuel : nat) (opts : options') :
  forall pre childNodes i visited,
    scanElement_for' fuel opts (pre ++ childNodes) (List.length pre + i)
      visited
    = withPrefix pre (scanElement_for' fuel opts childNodes i visited).
Proof.
  induction fuel as [|fuel IH]; intros pre cs i vis; [reflexivity|].
  cbn [scanElement_for].
  rewrite nth_error_app2 by lia.
  replace (List.length pre + i - List.length pre)%nat with i by lia.
  destruct (nth_error cs i) as [[t|nodeName id className kids|d]|];
    cbn [withPrefix].
  - destruct (scanText' fuel t opts) as [frag|]; [|reflexivity].
    rewrite replaceChild_app, <- !Nat.add_assoc. apply IH.
  - destruct (shouldRender' opts nodeName className).
    + destruct (scanElement_for' fuel opts kids 0 _) as [[kids' vk]|];
        [|reflexivity].
      rewrite replaceChild_app, <- !Nat.add_assoc. apply IH.
    + rewrite <- !Nat.add_assoc. apply IH.
  - rewrite <- !Nat.add_assoc. apply IH.
  - reflexivity.
Qed.

Lemma scanElement_for_frame (fuel : nat) (opts : options')
    (pre childNodes visited : list node) :
  scanElement_for' fuel opts (pre ++ childNodes) (List.length pre) visited
  = withVisited visited
      (withPrefix pre (scanElement_for' fuel opts childNodes 0 [])).
Proof.
  rewrite scanElement_for_visited.
  rewrite <- (Nat.add_0_r (List.length pre)) at 1.
  rewrite scanElement_for_prefix. reflexivity.
Qed.

Lemma scanElement_for_next (fuel : nat) (opts : options') (c : node)
    (post visited : list node) :
  scanElement_for' fuel opts (c :: post) (0 + 1) visited
  = withVisited visited
      (withPrefix [c] (scanElement_for' fuel opts post 0 [])).
Proof. exact (scanElement_for_frame fuel opts [c] post visited). Qed.

(** One turn of the loop on a text child. *)
Lemma scanElement_for_text (fuel : nat) (opts : options') (t : str)
    (post : list node) :
  scanElement_for' (S fuel) opts (TextNode t :: post) 0 []
  = match scanText' fuel t opts with
    | None => None
    | Some frag =>
        match scanElement_for' fuel opts post 0 [] with
        | None => None
        | Some (post', v) => Some (frag ++ post', TextNode t :: v)
        end
    end.
Proof.
  cbn [scanElement_for nth_error app].
  destruct (scanText' fuel t opts) as [frag|] eqn:Et; [|reflexivity].
  apply scanText_nonempty in Et. rewrite replaceChild_head.
  replace (0 + (List.length frag - 1) + 1)%nat with (List.length frag)
    by lia.
  rewrite scanElement_for_frame.
  destruct (scanElement_for' fuel opts post 0 []) as [[post' v]|];
    reflexivity.
Qed.

(** One turn of the loop on an element child. *)
Lemma scanElement_for_element (fuel : nat) (opts : options')
    (nodeName id className : str) (kids post : list node) :
  scanElement_for' (S fuel) opts (Element nodeName id className kids :: post)
    0 []
  = if shouldRender' opts nodeName className then
      match scanElement_for' fuel opts kids 0 [] with
      | None => None
      | Some (kids', vk) =>
          match scanElement_for' fuel opts post 0 [] with
          | None => None
          | Some (post', v) =>
              Some (Element nodeName id className kids' :: post',
                    Element nodeName id className kids :: vk ++ v)
          end
      end
    else
      match scanElement_for' fuel opts post 0 [] with
      | None => None
      | Some (post', v) =>
          Some (Element nodeName id className kids :: post',
                Element nodeName id className kids :: v)
      end.
Proof.
  cbn [scanElement_for nth_error app].
  destruct (shouldRender' opts nodeName className).
  - rewrite scanElement_for_visited.
    destruct (scanElement_for' fuel opts kids 0 []) as [[kids' vk]|];
      [|reflexivity].
    cbn [withVisited]. rewrite replaceChild_head. cbn [app].
    rewrite scanElement_for_next.
    destruct (scanElement_for' fuel opts post 0 []) as [[post' v]|];
      reflexivity.
  - rewrite scanElement_for_next.
    destruct (scanElement_for' fuel opts post 0 []) as [[post' v]|];
      reflexivity.
Qed.

(** One turn of the loop on a node of another kind. *)
Lemma scanElement_for_comment (fuel : nat) (opts : options') (d : str)
    (post : list node) :
  scanElement_for' (S fuel) opts (Comment d :: post) 0 []
  = match scanElement_for' fuel opts post 0 [] with
    | None => None
    | Some (post', v) => Some (Comment d :: post', Comment d :: v)
    end.
Proof.
  cbn [scanElement_for nth_error app].
  rewrite scanElement_for_next.
  destruct (scanElement_for' fuel opts post 0 []) as [[post' v]|];
    reflexivity.
Qed.

(** One turn of the loop on a text child at any index. *)
Lemma scanElement_for_text_at (fuel : nat) (opts : options')
    (pre post visited : list node) (t : str) :
  scanElement_for' (S fuel) opts (pre ++ TextNode t :: post) (List.length pre)
    visited
  = match scanText' fuel t opts with
    | None => None
    | Some frag =>
        match scanElement_for' fuel opts post 0 [] with
        | None => None
        | Some (post', v) =>
            Some (pre ++ frag ++ post', visited ++ TextNode t :: v)
        end
    end.
Proof.
  rewrite scanElement_for_frame, scanElement_for_text.
  destruct (scanText' fuel t opts) as [frag|]; [|reflexivity].
  destruct (scanElement_for' fuel opts post 0 []) as [[post' v]|];
    reflexivity.
Qed.


(** C10. On the environment path the span is appended to the fragment
    before the renderer is called: when the renderer throws there, the
    fragment is an empty element followed by a text node with the whole
    text, and not one text node as after a failure on a segment; these two
    nodes take the place of the text child. *)
Theorem environment_failure_leaves_span (fuel : nat) (text : str)
    (opts : options') (e : exn) :
  processEnvironments (TeX (given opts)) = true ->
  matchesBegin text = true ->
  latexToMarkup text displaystyle = Throw e ->
  scanText' fuel text opts
  = Some [Element (lit "SPAN") [] [] []; TextNode text]
  /\ scanText' fuel text opts <> Some [TextNode text]
  /\ forall pre post visited,
       scanElement_for' (S fuel) opts (pre ++ TextNode text :: post)
         (List.length pre) visited
       = match scanElement_for' fuel opts post 0 [] with
         | None => None
         | Some (post', v) =>
             Some (pre ++ Element (lit "SPAN") [] [] [] :: TextNode text
                       :: post',
                   visited ++ TextNode text :: v)
         end.
Proof.
  intros Hp Hm Ht.
  assert (E : scanText' fuel text opts
              = Some [Element (lit "SPAN") [] [] []; TextNode text]).
  { unfold scanText. rewrite Hp, Hm, Ht. reflexivity. }
  split; [exact E|]. split; [rewrite E; discriminate|].
  intros pre post visited. rewrite scanElement_for_text_at, E. reflexivity.
Qed.

(** *** Termination of the descent *)

Lemma loopReturns_children (opts : options') :
  properDelimiters (delimiters (TeX (given opts))) = true ->
  forall childNodes,
    Forall (kidsReturn' opts) childNodes -> loopReturns' opts childNodes.
Proof.
  intros Hp. induction childNodes as [|c post IH]; intros Hall.
  - exists 1%nat, []. intros [|fuel] Hf; [lia|reflexivity].
  - inversion Hall as [|? ? Hc Hpost]; subst.
    destruct (IH Hpost) as (N2 & post' & Hrest).
    destruct c as [t|nodeName id className kids|d].
    + destruct (scanText_terminates _ t opts Hp (Nat.le_refl _)) as [frag Et].
      exists (S (Nat.max (2 * List.length t + 3) N2)), (frag ++ post').
      intros [|fuel] Hf; [lia|].
      rewrite scanElement_for_text.
      assert (Hle : (2 * List.length t + 3 <= fuel)%nat) by lia.
      rewrite (scanText_mono _ _ _ _ _ Hle Et).
      rewrite Hrest by lia. reflexivity.
    + destruct Hc as (N1 & kids' & Hkids). cbn [childNodesOf] in Hkids.
      destruct (shouldRender' opts nodeName className) eqn:Es.
      * exists (S (Nat.max N1 N2)),
               (Element nodeName id className kids' :: post').
        intros [|fuel] Hf; [lia|].
        rewrite scanElement_for_element, Es, Hkids, Hrest by lia.
        cbn [flat_map reachableNodes]. rewrite Es. reflexivity.
      * exists (S N2), (Element nodeName id className kids :: post').
        intros [|fuel] Hf; [lia|].
        rewrite scanElement_for_element, Es, Hrest by lia.
        cbn [flat_map reachableNodes]. rewrite Es. reflexivity.
    + exists (S N2), (Comment d :: post').
      intros [|fuel] Hf; [lia|].
      rewrite scanElement_for_comment, Hrest by lia. reflexivity.
Qed.

Lemma loopReturns_all (opts : options') :
  properDelimiters (delimiters (TeX (given opts))) = true ->
  forall childNodes, loopReturns' opts childNodes.
Proof.
  intros Hp childNodes. apply loopReturns_children; [exact Hp|].
  apply Forall_forall. intros n _. revert n.
  apply node_nested_ind; intros; unfold kidsReturn; cbn [childNodesOf];
    try (apply loopReturns_children; [exact Hp|constructor]).
  apply loopReturns_children; assumption.
Qed.

(** C9. After a text child is replaced by its fragment, the loop goes on
    at the index just past the nodes spliced in: the nodes of the fragment
    (rendered spans, literal-text fallbacks) are kept as they are and are not
    visited in this traversal, while the later original siblings are visited
    in order, as a loop over them alone visits them.  When no delimiter pair
    is two empty tokens the loop returns, with the fragment in the place of
    the text child and a visit log that gains the text child and the visits
    of the later siblings only. *)
Theorem scanElement_skips_spliced_nodes (opts : options')
    (pre post visited : list node) (t : str) :
  (forall fuel,
     scanElement_for' (S fuel) opts (pre ++ TextNode t :: post)
       (List.length pre) visited
     = match scanText' fuel t opts with
       | None => None
       | Some frag =>
           scanElement_for' fuel opts ((pre ++ frag) ++ post)
             (List.length (pre ++ frag)) (visited ++ [TextNode t])
       end)
  /\ (forall fuel,
        scanElement_for' (S fuel) opts (pre ++ TextNode t :: post)
          (List.length pre) visited
        = match scanText' fuel t opts with
          | None => None
          | Some frag =>
              match scanElement_for' fuel opts post 0 [] with
              | None => None
              | Some (post', v) =>
                  Some (pre ++ frag ++ post', visited ++ TextNode t :: v)
              end
          end)
  /\ (properDelimiters (delimiters (TeX (given opts))) = true ->
      exists N frag post', forall fuel, (N <= fuel)%nat ->
        scanText' fuel t opts = Some frag
        /\ scanElement_for' fuel opts post 0 []
           = Some (post', flat_map (reachable' opts) post)
        /\ scanElement_for' fuel opts ((pre ++ frag) ++ post)
             (List.length (pre ++ frag)) (visited ++ [TextNode t])
           = Some (pre ++ frag ++ post',
                   visited ++ TextNode t :: flat_map (reachable' opts) post)
        /\ scanElement_for' (S fuel) opts (pre ++ TextNode t :: post)
             (List.length pre) visited
           = Some (pre ++ frag ++ post',
                   visited ++ TextNode t :: flat_map (reachable' opts) post)).
Proof.
  assert (Hresume : forall fuel frag,
    scanElement_for' fuel opts ((pre ++ frag) ++ post)
      (List.length (pre ++ frag)) (visited ++ [TextNode t])
    = match scanElement_for' fuel opts post 0 [] with
      | None => None
      | Some (post', v) =>
          Some (pre ++ frag ++ post', visited ++ TextNode t :: v)
      end).
  { intros fuel frag. rewrite scanElement_for_frame.
    destruct (scanElement_for' fuel opts post 0 []) as [[post' v]|];
      [|reflexivity].
    cbn [withPrefix withVisited]. rewrite <- !app_assoc. reflexivity. }
  split; [|split; [intros fuel; apply scanElement_for_text_at|]].
  - intros fuel. rewrite scanElement_for_text_at.
    destruct (scanText' fuel t opts) as [frag|]; [|reflexivity].
    rewrite Hresume. reflexivity.
  - intros Hp.
    destruct (scanText_terminates _ t opts Hp (Nat.le_refl _)) as [frag Et].
    destruct (loopReturns_all opts Hp post) as (N2 & post' & Hrest).
    exists (Nat.max (2 * List.length t + 3) N2), frag, post'.
    intros fuel Hf.
    assert (Hle : (2 * List.length t + 3 <= fuel)%nat) by lia.
    pose proof (scanText_mono _ _ _ _ _ Hle Et) as Et'.
    assert (Hr : scanElement_for' fuel opts post 0 []
                 = Some (post', flat_map (reachable' opts) post))
      by (apply Hrest; lia).
    split; [exact Et'|]. split; [exact Hr|]. split.
    + rewrite Hresume, Hr. reflexivity.
    + rewrite scanElement_for_text_at, Et', Hr. reflexivity.
Qed.

(** C8. The walker goes into an element child exactly when
    [processClassPattern] matches its class, or neither its tag name is in
    [skipTags] nor [ignoreClassPattern] matches its class; otherwise the
    child and its whole subtree stay as they are and none of its descendants
    is visited.  An element with a tag in [skipTags] and a class that
    [processClassPattern] matches is gone into.  When no delimiter pair is
    two empty tokens the loop returns: under the policy with the child's
    children rewritten and visited, otherwise with the child as it was and
    the later siblings alone visited after it. *)
Theorem scanElement_policy (opts : options')
    (pre post visited : list node) (nodeName id className : str)
    (kids : list node) :
  (forall fuel,
     scanElement_for' (S fuel) opts
       (pre ++ Element nodeName id className kids :: post) (List.length pre)
       visited
     = (if RegExp_test (processClassPattern opts) className
           || negb (includes (skipTags (given opts)) (toLowerCase nodeName)
                    || RegExp_test (ignoreClassPattern opts) className)
        then
          match scanElement_for' fuel opts kids 0 [] with
          | None => None
          | Some (kids', vk) =>
              match scanElement_for' fuel opts post 0 [] with
              | None => None
              | Some (post', v) =>
                  Some (pre ++ Element nodeName id className kids' :: post',
                        visited ++ Element nodeName id className kids
                                :: vk ++ v)
              end
          end
        else
          match scanElement_for' fuel opts post 0 [] with
          | None => None
          | Some (post', v) =>
              Some (pre ++ Element nodeName id className kids :: post',
                    visited ++ Element nodeName id className kids :: v)
          end))
  /\ (includes (skipTags (given opts)) (toLowerCase nodeName) = true ->
      RegExp_test (processClassPattern opts) className = true ->
      shouldRender' opts nodeName className = true)
  /\ (properDelimiters (delimiters (TeX (given opts))) = true ->
      exists N kids' post', forall fuel, (N <= fuel)%nat ->
        scanElement_for' fuel opts kids 0 []
        = Some (kids', flat_map (reachable' opts) kids)
        /\ scanElement_for' fuel opts post 0 []
           = Some (post', flat_map (reachable' opts) post)
        /\ scanElement_for' (S fuel) opts
             (pre ++ Element nodeName id className kids :: post)
             (List.length pre) visited
           = Some
               (if RegExp_test (processClassPattern opts) className
                   || negb (includes (skipTags (given opts))
                              (toLowerCase nodeName)
                            || RegExp_test (ignoreClassPattern opts) className)
                then
                  (pre ++ Element nodeName id className kids' :: post',
                   visited ++ Element nodeName id className kids
                           :: flat_map (reachable' opts) kids
                              ++ flat_map (reachable' opts) post)
                else
                  (pre ++ Element nodeName id className kids :: post',
                   visited ++ Element nodeName id className kids
                           :: flat_map (reachable' opts) post)))
  /\ (properDelimiters (delimiters (TeX (given opts))) = true ->
      includes (skipTags (given opts)) (toLowerCase nodeName) = true ->
      RegExp_test (processClassPattern opts) className = true ->
      exists N kids' post', forall fuel, (N <= fuel)%nat ->
        scanElement_for' fuel opts kids 0 []
        = Some (kids', flat_map (reachable' opts) kids)
        /\ scanElement_for' (S fuel) opts
             (pre ++ Element nodeName id className kids :: post)
             (List.length pre) visited
           = Some (pre ++ Element nodeName id className kids' :: post',
                   visited ++ Element nodeName id className kids
                           :: flat_map (reachable' opts) kids
                              ++ flat_map (reachable' opts) post)).
Proof.
  assert (Hturn : forall fuel,
    scanElement_for' (S fuel) opts
      (pre ++ Element nodeName id className kids :: post) (List.length pre)
      visited
    = (if RegExp_test (processClassPattern opts) className
          || negb (includes (skipTags (given opts)) (toLowerCase nodeName)
                   || RegExp_test (ignoreClassPattern opts) className)
       then
         match scanElement_for' fuel opts kids 0 [] with
         | None => None
         | Some (kids', vk) =>
             match scanElement_for' fuel opts post 0 [] with
             | None => None
             | Some (post', v) =>
                 Some (pre ++ Element nodeName id className kids' :: post',
                       visited ++ Element nodeName id className kids
                               :: vk ++ v)
             end
         end
       else
         match scanElement_for' fuel opts post 0 [] with
         | None => None
         | Some (post', v) =>
             Some (pre ++ Element nodeName id className kids :: post',
                   visited ++ Element nodeName id className kids :: v)
         end)).
  { intros fuel. rewrite scanElement_for_frame, scanElement_for_element.
    unfold shouldRender.
    destruct (RegExp_test (processClassPattern opts) className
              || negb _).
    - destruct (scanElement_for' fuel opts kids 0 []) as [[kids' vk]|];
        [|reflexivity].
      destruct (scanElement_for' fuel opts post 0 []) as [[post' v]|];
        reflexivity.
    - destruct (scanElement_for' fuel opts post 0 []) as [[post' v]|];
        reflexivity. }
  assert (Hreturns :
    properDelimiters (delimiters (TeX (given opts))) = true ->
    exists N kids' post', forall fuel, (N <= fuel)%nat ->
      scanElement_for' fuel opts kids 0 []
      = Some (kids', flat_map (reachable' opts) kids)
      /\ scanElement_for' fuel opts post 0 []
         = Some (post', flat_map (reachable' opts) post)).
  { intros Hp.
    destruct (loopReturns_all opts Hp kids) as (N1 & kids' & Hkids).
    destruct (loopReturns_all opts Hp post) as (N2 & post' & Hrest).
    exists (Nat.max N1 N2), kids', post'. intros fuel Hf.
    split; [apply Hkids|apply Hrest]; lia. }
  split; [exact Hturn|]. split; [|split].
  - intros _ Hm. unfold shouldRender. rewrite Hm. reflexivity.
  - intros Hp. destruct (Hreturns Hp) as (N & kids' & post' & H).
    exists N, kids', post'. intros fuel Hf.
    destruct (H fuel Hf) as [Hk Hr].
    split; [exact Hk|]. split; [exact Hr|].
    rewrite Hturn, Hk, Hr.
    destruct (RegExp_test (processClassPattern opts) className || negb _);
      reflexivity.
  - intros Hp _ Hm. destruct (Hreturns Hp) as (N & kids' & post' & H).
    exists N, kids', post'. intros fuel Hf.
    destruct (H fuel Hf) as [Hk Hr].
    split; [exact Hk|].
    rewrite Hturn, Hk, Hr, Hm. reflexivity.
Qed.

Lemma scanElement_terminates (opts : options') (elem : node) :
  properDelimiters (delimiters (TeX (given opts))) = true ->
  exists N elem', forall fuel, (N <= fuel)%nat ->
    scanElement' fuel elem opts
    = Some (elem', flat_map (reachable' opts) (childNodesOf elem)).
Proof.
  intros Hp. destruct elem as [t|nodeName id className kids|d].
  - exists 0%nat, (TextNode t). reflexivity.
  - destruct (loopReturns_all opts Hp kids) as (N & kids' & Hk).
    exists N, (Element nodeName id className kids'). intros fuel Hf.
    unfold scanElement. rewrite Hk by exact Hf. reflexivity.
  - exists 0%nat, (Comment d). reflexivity.
Qed.

Lemma scanElementAt_terminates (opts : options') :
  properDelimiters (delimiters (TeX (given opts))) = true ->
  forall (p : path) (n : node),
    exists N r, forall fuel, (N <= fuel)%nat ->
      scanElementAt' fuel p n opts = Some r.
Proof.
  intros Hp. induction p as [|k p IH]; intros n.
  - destruct (scanElement_terminates opts n Hp) as (N & elem' & H).
    exists N, (elem', flat_map (reachable' opts) (childNodesOf n)). exact H.
  - destruct n as [t|nodeName id className kids|d];
      try (exists 0%nat; eexists; reflexivity).
    cbn [scanElementAt].
    destruct (nth_error kids k) as [c|];
      [|exists 0%nat; eexists; reflexivity].
    destruct (IH c) as (N & [c' v] & H).
    exists N. eexists. intros fuel Hf. rewrite H by exact Hf. reflexivity.
Qed.

Lemma splitAtDelimiters_terminates (startData : list segment) (l r : str)
    (style : mathstyle) :
  properPair (l, r) = true ->
  exists N data, forall fuel, (N <= fuel)%nat ->
    splitAtDelimiters fuel startData l r style = Some data.
Proof.
  intros Hp. set (N := (2 * List.length (rawText startData) + 3)%nat).
  destruct (splitAtDelimiters_for_terminates N l r style
              (List.length (rawText startData)) startData
              (properPair_len _ _ Hp) (Nat.le_refl _))
    with (finalData := @nil segment) as [data E].
  - intros seg Hin. apply raw_length_le; exact Hin.
  - exists N, data. intros fuel Hf.
    exact (splitAtDelimiters_for_mono _ _ _ _ _ _ Hf _ _ E).
Qed.

(** *** Option objects with parts missing

    On a complete option object the walker is the walker above. *)

Lemma splitAtDelimiters_while_dyn_complete (fuel : nat) (text l r : str)
    (style : mathstyle) :
  forall lookingForLeft currIndex finalData,
    splitAtDelimiters_while_dyn fuel text (Some l) (Some r) style
      lookingForLeft currIndex finalData
    = returned (splitAtDelimiters_while fuel text l r style lookingForLeft
                  currIndex finalData).
Proof.
  induction fuel as [|fuel IH]; intros lfl c fd; [reflexivity|].
  cbn [splitAtDelimiters_while_dyn splitAtDelimiters_while toStringJS].
  destruct lfl; destruct (_ =? -1); try reflexivity; apply IH.
Qed.

Lemma splitAtDelimiters_text_dyn_complete (fuel : nat) (text l r : str)
    (style : mathstyle) (finalData : list segment) :
  splitAtDelimiters_text_dyn fuel text (Some l) (Some r) style finalData
  = returned (splitAtDelimiters_text fuel text l r style finalData).
Proof.
  unfold splitAtDelimiters_text_dyn, splitAtDelimiters_text.
  cbn [toStringJS].
  destruct (indexOf text l 0 =? -1);
    rewrite splitAtDelimiters_while_dyn_complete;
    destruct (splitAtDelimiters_while _ _ _ _ _ _ _ _) as [[c fd]|];
    reflexivity.
Qed.

Lemma splitAtDelimiters_for_dyn_complete (fuel : nat) (l r : str)
    (style : mathstyle) (startData : list segment) :
  forall finalData,
    splitAtDelimiters_for_dyn fuel startData (Some l) (Some r) style finalData
    = returned (splitAtDelimiters_for fuel startData l r style finalData).
Proof.
  induction startData as [|seg rest IH]; intros fd; [reflexivity|].
  destruct seg as [text|d rw s];
    cbn [splitAtDelimiters_for_dyn splitAtDelimiters_for]; [|apply IH].
  rewrite splitAtDelimiters_text_dyn_complete.
  destruct (splitAtDelimiters_text _ _ _ _ _ _) as [fd'|];
    [apply IH|reflexivity].
Qed.

Lemma splitWithDelimiters_for_dyn_complete (fuel : nat) (style : mathstyle)
    (pairs : list dynPair) :
  forall pairs' data,
    completePairs pairs = Some pairs' ->
    splitWithDelimiters_for_dyn fuel data pairs style
    = returned (splitWithDelimiters_for fuel data pairs' style).
Proof.
  induction pairs as [|[[l|] [r|]] rest IH]; intros pairs' data E;
    cbn [completePairs completePair] in E; try discriminate.
  - inversion E. reflexivity.
  - destruct (completePairs rest) as [rest'|]; [|discriminate].
    inversion E; subst.
    cbn [splitWithDelimiters_for_dyn splitWithDelimiters_for fst snd].
    unfold splitAtDelimiters_dyn, splitAtDelimiters.
    rewrite splitAtDelimiters_for_dyn_complete.
    destruct (splitAtDelimiters_for _ _ _ _ _ _) as [data'|];
      [apply IH; reflexivity|reflexivity].
Qed.

Lemma splitWithDelimiters_dyn_complete (fuel : nat) (text : str)
    (d : option dynDelimiters) (d' : Delimiters) :
  completeDelimiters d = Some d' ->
  splitWithDelimiters_dyn fuel text d
  = returned (splitWithDelimiters fuel text d').
Proof.
  unfold completeDelimiters, splitWithDelimiters_dyn, splitWithDelimiters.
  destruct d as [[[i|] [di|]]|]; cbn [dynInline dynDisplay];
    try discriminate.
  destruct (completePairs i) as [i'|] eqn:Ei; [|discriminate].
  destruct (completePairs di) as [di'|] eqn:Ed; [|discriminate].
  intros E; inversion E; subst. cbn [inline display].
  rewrite (splitWithDelimiters_for_dyn_complete _ _ _ _ _ Ei).
  destruct (splitWithDelimiters_for _ _ i' _) as [data|]; [|reflexivity].
  cbn [returned].
  apply (splitWithDelimiters_for_dyn_complete _ _ _ _ _ Ed).
Qed.

Lemma completeOptions_inv (opts : dynOptions') (opts' : options') :
  completeOptions opts = Some opts' ->
  exists d',
    completeDelimiters (dynDelimitersOf (dynTeXOf (dynGiven opts))) = Some d'
    /\ opts' = {| given :=
                    {| skipTags := dynSkipTags (dynGiven opts);
                       ignoreClass := dynIgnoreClass (dynGiven opts);
                       processClass := dynProcessClass (dynGiven opts);
                       TeX :=
                         {| disabled :=
                              truthy (dynDisabled (dynTeXOf (dynGiven opts)));
                            processEnvironments :=
                              truthy (dynProcessEnvironments
                                        (dynTeXOf (dynGiven opts)));
                            delimiters := d' |} |};
                  ignoreClassPattern := dynIgnoreClassPattern opts;
                  processClassPattern := dynProcessClassPattern opts |}.
Proof.
  unfold completeOptions, completeSettings, completeTeX.
  destruct (completeDelimiters _) as [d'|]; [|discriminate].
  intros E; inversion E. exists d'. split; reflexivity.
Qed.

Lemma scanText_dyn_complete (fuel : nat) (text : str) (opts : dynOptions')
    (opts' : options') :
  completeOptions opts = Some opts' ->
  scanText_dyn' fuel text opts = returned (scanText' fuel text opts').
Proof.
  intros E. apply completeOptions_inv in E as (d' & Ed & ->).
  unfold scanText_dyn, scanText.
  cbn [given TeX processEnvironments delimiters].
  destruct (truthy _ && matchesBegin text).
  - destruct (latexToMarkup text displaystyle); reflexivity.
  - rewrite (splitWithDelimiters_dyn_complete _ _ _ _ Ed).
    destruct (splitWithDelimiters _ _ _); reflexivity.
Qed.

Lemma shouldRender_dyn_complete (opts : dynOptions') (opts' : options')
    (nodeName className : str) :
  completeOptions opts = Some opts' ->
  shouldRender_dyn' opts nodeName className
  = shouldRender' opts' nodeName className.
Proof.
  intros E. apply completeOptions_inv in E as (d' & Ed & ->). reflexivity.
Qed.

Lemma scanElement_for_dyn_complete (opts : dynOptions') (opts' : options') :
  completeOptions opts = Some opts' ->
  forall fuel childNodes i visited,
    scanElement_for_dyn' fuel opts childNodes i visited
    = walked (scanElement_for' fuel opts' childNodes i visited).
Proof.
  intros E.
  induction fuel as [|fuel IH]; intros cs i vis; [reflexivity|].
  cbn [scanElement_for_dyn scanElement_for].
  destruct (nth_error cs i) as [[t|nodeName id className kids|d]|];
    [| |apply IH|reflexivity].
  - rewrite (scanText_dyn_complete _ _ _ _ E).
    destruct (scanText' fuel t opts') as [frag|]; [apply IH|reflexivity].
  - rewrite (shouldRender_dyn_complete _ _ _ _ E).
    destruct (shouldRender' opts' nodeName className); [|apply IH].
    rewrite IH.
    destruct (scanElement_for' fuel opts' kids 0 _) as [[kids' vk]|];
      [apply IH|reflexivity].
Qed.

Lemma scanElementAt_dyn_complete (opts : dynOptions') (opts' : options')
    (fuel : nat) :
  completeOptions opts = Some opts' ->
  forall (p : path) (n : node),
    scanElementAt_dyn' fuel p n opts = walked (scanElementAt' fuel p n opts').
Proof.
  intros E. induction p as [|k p IH]; intros n.
  - cbn [scanElementAt_dyn scanElementAt].
    destruct n as [t|nodeName id className kids|d]; try reflexivity.
    unfold scanElement_dyn, scanElement.
    rewrite (scanElement_for_dyn_complete _ _ E).
    destruct (scanElement_for' fuel opts' kids 0 []) as [[kids' v]|];
      reflexivity.
  - cbn [scanElementAt_dyn scanElementAt].
    destruct n as [t|nodeName id className kids|d]; try reflexivity.
    destruct (nth_error kids k) as [c|]; [|reflexivity].
    rewrite IH.
    destruct (scanElementAt' fuel p c opts') as [[c' v]|]; reflexivity.
Qed.

Lemma assign_dyn_complete (o : dynOverrides) (o' : overrides) :
  completeOverrides o = Some o' ->
  completeSettings (assign_dyn defaultOptions_dyn o)
  = Some (assign defaultOptions o')
  /\ dynIgnoreClass (assign_dyn defaultOptions_dyn o)
     = ignoreClass (assign defaultOptions o')
  /\ dynProcessClass (assign_dyn defaultOptions_dyn o)
     = processClass (assign defaultOptions o').
Proof.
  unfold completeOverrides.
  destruct o as [st ic pc [t|]]; cbn [d_TeX d_skipTags d_ignoreClass
                                       d_processClass].
  - destruct (completeTeX t) as [t'|] eqn:Et; [|discriminate].
    intros E; inversion E; subst.
    unfold completeSettings, assign_dyn, assign.
    cbn [dynTeXOf d_TeX orDefault o_TeX o_skipTags o_ignoreClass
         o_processClass d_skipTags d_ignoreClass d_processClass].
    rewrite Et. repeat split; reflexivity.
  - intros E; inversion E; subst. repeat split; reflexivity.
Qed.

(** On a complete option object the entry point is the entry point above. *)
Lemma renderMathInElement_dyn_complete (fuel : nat) (elem : rootArg)
    (o : dynOverrides) (o' : overrides) (body : node) :
  completeOverrides o = Some o' ->
  renderMathInElement_dyn' fuel elem o body
  = renderMathInElement' fuel elem o' body.
Proof.
  intros E. apply assign_dyn_complete in E as (Es & Ei & Ep).
  unfold renderMathInElement_dyn, renderMathInElement.
  destruct (falsy elem); [reflexivity|].
  rewrite Ei, Ep.
  destruct (RegExp_new (ignoreClass _)) as [ip|]; [|reflexivity].
  destruct (RegExp_new (processClass _)) as [pp|]; [|reflexivity].
  match goal with
  | |- context [scanElementAt_dyn' _ ?p _ ?d] =>
      rewrite (scanElementAt_dyn_complete d
                 {| given := assign defaultOptions o';
                    ignoreClassPattern := ip;
                    processClassPattern := pp |} fuel)
  end.
  - destruct (scanElementAt' _ _ _ _) as [[b v]|]; reflexivity.
  - unfold completeOptions. cbn [dynGiven]. rewrite Es. reflexivity.
Qed.







(** C6, as amended. When the option object is complete (both delimiter
    lists are there and every pair has its two tokens) and no delimiter pair
    of the configuration has both tokens empty, a traversal that begins
    completes on every finite tree: the loop of [splitAtDelimiters] returns
    for every text and every pair that is not two empty tokens,
    [scanElement] returns having visited each node reachable under the
    policy once, in document order, and the entry point, once the two class
    patterns have compiled, returns. *)
Theorem traversal_completes :
  (forall startData l r style,
     properPair (l, r) = true ->
     exists N data, forall fuel, (N <= fuel)%nat ->
       splitAtDelimiters fuel startData l r style = Some data)
  /\ (forall (opts : options') elem,
        properDelimiters (delimiters (TeX (given opts))) = true ->
        exists N elem', forall fuel, (N <= fuel)%nat ->
          scanElement' fuel elem opts
          = Some (elem', flat_map (reachable' opts) (childNodesOf elem)))
  /\ (forall elem (options_ : dynOverrides) (complete : overrides) body
             ignorePattern processPattern,
        completeOverrides options_ = Some complete ->
        properDelimiters (delimiters (TeX (assign defaultOptions complete)))
        = true ->
        RegExp_new (ignoreClass (assign defaultOptions complete))
        = Some ignorePattern ->
        RegExp_new (processClass (assign defaultOptions complete))
        = Some processPattern ->
        exists N body' visited, forall fuel, (N <= fuel)%nat ->
          renderMathInElement_dyn' fuel elem options_ body
          = Completed body' visited).
Proof.
  split; [exact splitAtDelimiters_terminates|].
  split; [intros opts elem Hp; exact (scanElement_terminates opts elem Hp)|].
  intros elem options_ complete body ip pp Hc Hp Hi Hpp.
  destruct (falsy elem) eqn:Hf.
  - exists 0%nat, body, []. intros fuel _.
    unfold renderMathInElement_dyn. rewrite Hf. reflexivity.
  - destruct (scanElementAt_terminates
                {| given := assign defaultOptions complete;
                   ignoreClassPattern := ip;
                   processClassPattern := pp |} Hp
                (orDefault
                   match elem with
                   | ById id => getElementById body id
                   | ByRef p => Some p
                   | Absent => None
                   end []) body) as (N & [b v] & H).
    exists N, b, v. intros fuel Hfuel.
    rewrite (renderMathInElement_dyn_complete _ _ _ _ _ Hc).
    unfold renderMathInElement. rewrite Hf, Hi, Hpp. cbv zeta.
    rewrite H by exact Hfuel. reflexivity.
Qed.

(** *** The entry point *)

(** C2, as amended. When the root argument is absent the call returns at
    once and nothing is traversed; when the root is a string identifier that
    resolves to no node the traversal runs on the top-level content node
    [document.body]; an identifier that resolves names the node it
    resolves to. *)
Theorem root_resolution :
  (forall fuel options_ body,
     renderMathInElement' fuel Absent options_ body = Completed body [])
  /\ (forall fuel id options_ body,
        falsy (ById id) = false ->
        getElementById body id = None ->
        renderMathInElement' fuel (ById id) options_ body
        = renderMathInElement' fuel (ByRef []) options_ body)
  /\ (forall fuel id options_ body p,
        falsy (ById id) = false ->
        getElementById body id = Some p ->
        renderMathInElement' fuel (ById id) options_ body
        = renderMathInElement' fuel (ByRef p) options_ body).
Proof.
  split; [reflexivity|]. split.
  - intros fuel id options_ body Hf Hg. unfold renderMathInElement.
    rewrite Hf, Hg. reflexivity.
  - intros fuel id options_ body p Hf Hg. unfold renderMathInElement.
    rewrite Hf, Hg. reflexivity.
Qed.


End WalkerFacts.

(** ** Worked examples on the sample host *)

Lemma root_resolution_witness :
  falsy (ById (lit "missing")) = false
  /\ getElementById Sample.page (lit "missing") = None
  /\ Sample.render 50 (ById (lit "missing")) Sample.noOverrides Sample.page
     = Sample.render 50 (ByRef []) Sample.noOverrides Sample.page.
Proof.
  split; [reflexivity|]. split; [reflexivity|].
  apply (proj1 (proj2 (root_resolution str Sample.RegExp_new
                         Sample.RegExp_test Sample.parseHTML
                         Sample.latexToMarkup)));
    reflexivity.
Defined.

(** C2 as stated fails on both counts: with an absent root the page stays
    as it is although a traversal from its top-level node rewrites it, and
    with an identifier that resolves to no node the page is rewritten. *)
Lemma root_resolution_counterexample :
  Sample.render 50 Absent Sample.noOverrides Sample.page
  = Completed Sample.page []
  /\ Sample.render 50 (ByRef []) Sample.noOverrides Sample.page
     = Completed Sample.renderedPage
         (flat_map (reachableNodes str Sample.RegExp_test Sample.opts)
            (childNodesOf Sample.page))
  /\ getElementById Sample.page (lit "missing") = None
  /\ Sample.render 50 (ById (lit "missing")) Sample.noOverrides Sample.page
     = Completed Sample.renderedPage
         (flat_map (reachableNodes str Sample.RegExp_test Sample.opts)
            (childNodesOf Sample.page))
  /\ Sample.renderedPage <> Sample.page.
Proof. repeat split; discriminate. Qed.


(** Option objects with parts missing on the sample host: without the
    [delimiters], and with a pair that has no right token, the call raises a
    [TypeError] at the text with a dollar, after the paragraph and that text
    were visited and with the last text never reached; with the pair
    complete the same call returns. *)
Lemma missing_delimiters_raise_in_traversal :
  SampleDyn.render 50 (ByRef []) SampleDyn.environmentsOff SampleDyn.shop
  = Raised TypeError SampleDyn.shop
      [Element (lit "P") [] [] []; TextNode (lit "price: $5")]
  /\ SampleDyn.render 50 (ByRef []) SampleDyn.rightTokenMissing SampleDyn.shop
     = Raised TypeError SampleDyn.shop
         [Element (lit "P") [] [] []; TextNode (lit "price: $5")]
  /\ SampleDyn.render 50 (ByRef []) SampleDyn.dollars SampleDyn.shop
     = Completed
         (Sample.div [] []
            [Element (lit "P") [] [] [];
             TextNode (lit "price: ");
             TextNode (lit "$5");
             TextNode (lit "more")])
         [Element (lit "P") [] [] [];
          TextNode (lit "price: $5");
          TextNode (lit "more")].
Proof. repeat split. Qed.


Lemma traversal_completes_witness :
  properDelimiters (delimiters (TeX (given Sample.opts))) = true
  /\ (exists N elem', forall fuel, (N <= fuel)%nat ->
        Sample.scanElement' fuel Sample.page Sample.opts
        = Some (elem',
                [TextNode (lit "a $$x$$ b $$?$$");
                 Element (lit "PRE") [] [] [TextNode (lit "$$y$$")];
                 Element (lit "PRE") [] (lit "tex2jax_process")
                   [TextNode (lit "\[z\]")];
                 TextNode (lit "\[z\]")]))
  /\ completeOverrides SampleDyn.dollars = Some SampleDyn.dollarsComplete
  /\ properDelimiters
       (delimiters (TeX (assign defaultOptions SampleDyn.dollarsComplete)))
     = true
  /\ (exists N body' visited, forall fuel, (N <= fuel)%nat ->
        SampleDyn.render fuel (ByRef []) SampleDyn.dollars SampleDyn.shop
        = Completed body' visited)
  /\ SampleDyn.render 50 (ByRef []) SampleDyn.dollars SampleDyn.shop
     = Completed
         (Sample.div [] []
            [Element (lit "P") [] [] [];
             TextNode (lit "price: ");
             TextNode (lit "$5");
             TextNode (lit "more")])
         [Element (lit "P") [] [] [];
          TextNode (lit "price: $5");
          TextNode (lit "more")].
Proof.
  split; [reflexivity|]. split.
  - apply (proj1 (proj2 (traversal_completes str Sample.RegExp_new
                           Sample.RegExp_test Sample.parseHTML
                           Sample.latexToMarkup)) Sample.opts Sample.page).
    reflexivity.
  - split; [reflexivity|]. split; [reflexivity|]. split; [|reflexivity].
    apply (proj2 (proj2 (traversal_completes str Sample.RegExp_new
                           Sample.RegExp_test Sample.parseHTML
                           Sample.latexToMarkup))
             (ByRef []) SampleDyn.dollars SampleDyn.dollarsComplete
             SampleDyn.shop (lit "tex2jax_ignore") (lit "tex2jax_process"));
      reflexivity.
Defined.

Lemma sample_scanText_empty_pair (fuel : nat) :
  scanText str Sample.parseHTML Sample.latexToMarkup fuel (lit "a")
    {| given := assign defaultOptions (Sample.withDelimiters Sample.emptyPair);
       ignoreClassPattern := lit "tex2jax_ignore";
       processClassPattern := lit "tex2jax_process" |}
  = None.
Proof.
  unfold scanText.
  change (processEnvironments _ && matchesBegin (lit "a")) with false.
  cbv iota. unfold splitWithDelimiters.
  change (splitWithDelimiters_for fuel [TextSeg (lit "a")] _ textstyle)
    with (match splitAtDelimiters fuel [TextSeg (lit "a")] [] [] textstyle with
          | None => None
          | Some data => splitWithDelimiters_for fuel data [] textstyle
          end).
  change (lit "a") with ["a"%char].
  rewrite splitAtDelimiters_empty_pair. reflexivity.
Qed.

(** C6 as stated fails: with the pair of two empty tokens both class
    patterns compile, the traversal begins, and no amount of fuel lets the
    call on a page with the text [a] end. *)
Lemma empty_pair_never_completes :
  Sample.RegExp_new
    (ignoreClass
       (assign defaultOptions (Sample.withDelimiters Sample.emptyPair)))
  <> None
  /\ Sample.RegExp_new
       (processClass
          (assign defaultOptions (Sample.withDelimiters Sample.emptyPair)))
     <> None
  /\ ~ exists fuel,
         Sample.render fuel (ByRef []) (Sample.withDelimiters Sample.emptyPair)
           (Sample.div [] [] [TextNode (lit "a")])
         <> Unfinished.
Proof.
  split; [discriminate|]. split; [discriminate|].
  intros [fuel H]. apply H. clear H.
  unfold Sample.render, renderMathInElement.
  change (falsy (ByRef [])) with false. cbv iota.
  change (Sample.RegExp_new (ignoreClass _))
    with (Some (lit "tex2jax_ignore")).
  change (Sample.RegExp_new (processClass _))
    with (Some (lit "tex2jax_process")).
  cbv iota. cbn [orDefault scanElementAt Sample.div scanElement].
  destruct fuel as [|fuel]; [reflexivity|].
  cbn [scanElement_for nth_error].
  rewrite sample_scanText_empty_pair. reflexivity.
Qed.


Lemma scanElement_policy_witness :
  properDelimiters (delimiters (TeX (given Sample.opts))) = true
  /\ includes (skipTags (given Sample.opts)) (toLowerCase (lit "PRE")) = true
  /\ Sample.RegExp_test (processClassPattern Sample.opts) (lit "tex2jax_process")
     = true
  /\ (exists N kids' post', forall fuel, (N <= fuel)%nat ->
        Sample.scanElement_for' fuel Sample.opts [TextNode (lit "\[z\]")] 0 []
        = Some (kids', [TextNode (lit "\[z\]")])
        /\ Sample.scanElement_for' (S fuel) Sample.opts
             [Element (lit "PRE") [] [] [TextNode (lit "$$y$$")];
              Element (lit "PRE") [] (lit "tex2jax_process")
                [TextNode (lit "\[z\]")]]
             1 [Element (lit "PRE") [] [] [TextNode (lit "$$y$$")]]
           = Some (Element (lit "PRE") [] [] [TextNode (lit "$$y$$")]
                   :: Element (lit "PRE") [] (lit "tex2jax_process") kids'
                   :: post',
                   [Element (lit "PRE") [] [] [TextNode (lit "$$y$$")];
                    Element (lit "PRE") [] (lit "tex2jax_process")
                      [TextNode (lit "\[z\]")];
                    TextNode (lit "\[z\]")]))
  /\ Sample.scanElement_for' 50 Sample.opts
       [Element (lit "PRE") [] [] [TextNode (lit "$$y$$")];
        Element (lit "PRE") [] (lit "tex2jax_process")
          [TextNode (lit "\[z\]")]]
       0 []
     = Some ([Element (lit "PRE") [] [] [TextNode (lit "$$y$$")];
              Element (lit "PRE") [] (lit "tex2jax_process")
                [TextNode [];
                 Element (lit "SPAN") [] [] [TextNode (lit "<m>z</m>")];
                 TextNode []]],
             [Element (lit "PRE") [] [] [TextNode (lit "$$y$$")];
              Element (lit "PRE") [] (lit "tex2jax_process")
                [TextNode (lit "\[z\]")];
              TextNode (lit "\[z\]")]).
Proof.
  split; [reflexivity|]. split; [reflexivity|]. split; [reflexivity|].
  split; [|reflexivity].
  exact (proj2 (proj2 (proj2
           (scanElement_policy str Sample.RegExp_test Sample.parseHTML
              Sample.latexToMarkup Sample.opts
              [Element (lit "PRE") [] [] [TextNode (lit "$$y$$")]] []
              [Element (lit "PRE") [] [] [TextNode (lit "$$y$$")]]
              (lit "PRE") [] (lit "tex2jax_process")
              [TextNode (lit "\[z\]")])))
           eq_refl eq_refl eq_refl).
Defined.

Lemma scanElement_skips_spliced_nodes_witness :
  properDelimiters (delimiters (TeX (given Sample.opts))) = true
  /\ (exists N out, forall fuel, (N <= fuel)%nat ->
        Sample.scanElement_for' (S fuel) Sample.opts
          [TextNode (lit "a $$?$$"); TextNode (lit "$$x$$")] 0 []
        = Some (out, [TextNode (lit "a $$?$$"); TextNode (lit "$$x$$")]))
  /\ Sample.scanElement_for' 50 Sample.opts
       [TextNode (lit "a $$?$$"); TextNode (lit "$$x$$")] 0 []
     = Some ([TextNode (lit "a ");
              TextNode (lit "$$?$$");
              TextNode [];
              TextNode [];
              Element (lit "SPAN") [] [] [TextNode (lit "<m>x</m>")];
              TextNode []],
             [TextNode (lit "a $$?$$"); TextNode (lit "$$x$$")]).
Proof.
  split; [reflexivity|]. split; [|reflexivity].
  destruct (proj2 (proj2
              (scanElement_skips_spliced_nodes str Sample.RegExp_test
                 Sample.parseHTML Sample.latexToMarkup Sample.opts
                 [] [TextNode (lit "$$x$$")] [] (lit "a $$?$$")))
              eq_refl) as (N & frag & post' & H).
  exists N, (frag ++ post'). intros fuel Hf.
  exact (proj2 (proj2 (proj2 (H fuel Hf)))).
Defined.

Lemma environment_failure_leaves_span_witness :
  processEnvironments (TeX (given Sample.opts)) = true
  /\ matchesBegin (lit "  \begin{?}") = true
  /\ Sample.latexToMarkup (lit "  \begin{?}") displaystyle
     = Throw (Error (lit "unknown"))
  /\ Sample.scanText' 50 (lit "  \begin{?}") Sample.opts
     = Some [Element (lit "SPAN") [] [] []; TextNode (lit "  \begin{?}")].
Proof.
  split; [reflexivity|]. split; [reflexivity|]. split; [reflexivity|].
  apply (proj1 (environment_failure_leaves_span str Sample.RegExp_test
                  Sample.parseHTML Sample.latexToMarkup 50
                  (lit "  \begin{?}") Sample.opts (Error (lit "unknown"))
                  eq_refl eq_refl eq_refl)).
Defined.

(** * Further properties *)

(** ** More on the delimiter matcher *)

Lemma findEndOfMath_loop_found (fuel : nat) (delimiter text : str)
    (index braceLevel r : Z) :
  findEndOfMath_loop fuel delimiter text index braceLevel = Some r ->
  r <> -1 ->
  str_eqb (slice text r (r + len delimiter)) delimiter = true.
Proof.
  revert index braceLevel.
  induction fuel as [|fuel IH]; intros index braceLevel; [discriminate|].
  cbn [findEndOfMath_loop].
  destruct (index <? len text); [|intros E; inversion E; lia].
  destruct ((braceLevel <=? 0) && str_eqb _ delimiter) eqn:Em.
  - intros E _; inversion E; subst r.
    apply andb_true_iff in Em as [_ Em]. exact Em.
  - destruct (is_char backslash _); [apply IH|].
    destruct (is_char lbrace _); [apply IH|].
    destruct (is_char rbrace _); apply IH.
Qed.

(** A found offset is an occurrence of the token inside the text, at or
    after the start offset. *)
Theorem findEndOfMath_found (delimiter text : str) (startIndex : Z) :
  0 <= startIndex ->
  findEndOfMath delimiter text startIndex <> -1 ->
  startIndex <= findEndOfMath delimiter text startIndex < len text
  /\ findEndOfMath delimiter text startIndex + len delimiter <= len text
  /\ slice text (findEndOfMath delimiter text startIndex)
       (findEndOfMath delimiter text startIndex + len delimiter)
     = delimiter.
Proof.
  intros H0 Hr.
  destruct (findEndOfMath_bounds delimiter text startIndex H0) as [E|[B1 B2]];
    [contradiction|].
  split; [exact B1|]. split; [exact B2|].
  apply str_eqb_eq. revert Hr. unfold findEndOfMath.
  destruct (findEndOfMath_loop _ delimiter text startIndex 0) as [r|] eqn:E;
    [|intros []; reflexivity].
  intros Hr. exact (findEndOfMath_loop_found _ _ _ _ _ _ E Hr).
Qed.

Lemma findEndOfMath_found_witness :
  0 <= 3
  /\ findEndOfMath (lit "\)") (lit "a \( x^{2} \) b") 3 = 11
  /\ slice (lit "a \( x^{2} \) b") 11 (11 + len (lit "\)")) = lit "\)".
Proof.
  split; [lia|]. split; [reflexivity|].
  apply (findEndOfMath_found (lit "\)") (lit "a \( x^{2} \) b") 3);
    [lia|discriminate].
Defined.

(** At or past the end of the text nothing is found, and an empty token is
    found at once at a start offset inside the text. *)
Theorem findEndOfMath_edges (delimiter text : str) (startIndex : Z) :
  (len text <= startIndex -> findEndOfMath delimiter text startIndex = -1)
  /\ (0 <= startIndex < len text -> findEndOfMath [] text startIndex = startIndex).
Proof.
  split.
  - intros H. unfold findEndOfMath. cbn [findEndOfMath_loop].
    destruct (startIndex <? len text) eqn:E; [apply Z.ltb_lt in E; lia|].
    reflexivity.
  - apply findEndOfMath_empty.
Qed.

Lemma findEndOfMath_edges_witness :
  len (lit "ab") <= 2
  /\ findEndOfMath (lit "b") (lit "ab") 2 = -1
  /\ findEndOfMath [] (lit "ab") 1 = 1.
Proof.
  split; [vm_compute; discriminate|]. split.
  - apply (proj1 (findEndOfMath_edges (lit "b") (lit "ab") 2)).
    vm_compute; discriminate.
  - apply (proj2 (findEndOfMath_edges (lit "b") (lit "ab") 1)).
    vm_compute. split; [discriminate|reflexivity].
Defined.

Lemma scanPositions_shift (n : nat) :
  forall (rest : str) (pos depth k : Z),
    (List.length rest <= n)%nat ->
    scanPositions rest (pos + k) depth
    = map (fun pd => (fst pd + k, snd pd)) (scanPositions rest pos depth).
Proof.
  induction n as [|n IH]; intros [|c rest] pos depth k Hn; try reflexivity;
    [simpl in Hn; lia|].
  cbn [scanPositions map fst snd]. f_equal. simpl in Hn.
  destruct (Ascii.eqb c backslash).
  - destruct rest as [|c' rest'']; [reflexivity|]. simpl in Hn.
    replace (pos + k + 2) with (pos + 2 + k) by lia. apply IH; lia.
  - replace (pos + k + 1) with (pos + 1 + k) by lia.
    destruct (Ascii.eqb c lbrace); [apply IH; lia|].
    destruct (Ascii.eqb c rbrace); apply IH; lia.
Qed.

Lemma find_matchesAt_shift (delimiter text : str) (s : Z) (l : list (Z * Z)) :
  0 <= s ->
  (forall pd, In pd l -> 0 <= fst pd) ->
  find (matchesAt delimiter text) (map (fun pd => (fst pd + s, snd pd)) l)
  = option_map (fun pd => (fst pd + s, snd pd))
      (find (matchesAt delimiter (skipn (Z.to_nat s) text)) l).
Proof.
  intros Hs. induction l as [|[p d] l IH]; intros Hl; [reflexivity|].
  cbn [map find fst snd].
  assert (Hp : 0 <= p) by (apply (Hl (p, d)); left; reflexivity).
  assert (E : matchesAt delimiter text (p + s, d)
              = matchesAt delimiter (skipn (Z.to_nat s) text) (p, d)).
  { unfold matchesAt, occursAt. cbn [fst snd]. rewrite skipn_skipn.
    do 3 f_equal. lia. }
  rewrite E. destruct (matchesAt _ _ (p, d)); [reflexivity|].
  apply IH. intros pd Hin. apply Hl. right. exact Hin.
Qed.

(** The matcher does not look before the start offset. *)
Lemma findEndOfMath_shift (delimiter text : str) (startIndex : Z) :
  0 <= startIndex ->
  findEndOfMath delimiter text startIndex
  = shiftFound startIndex
      (findEndOfMath delimiter (skipn (Z.to_nat startIndex) text) 0).
Proof.
  intros H0. rewrite !findEndOfMath_eq_firstMatch by lia. unfold firstMatch.
  change (skipn (Z.to_nat 0) (skipn (Z.to_nat startIndex) text))
    with (skipn (Z.to_nat startIndex) text).
  set (sub := skipn (Z.to_nat startIndex) text).
  change startIndex with (0 + startIndex) at 1.
  rewrite (scanPositions_shift _ sub 0 0 startIndex (Nat.le_refl _)).
  rewrite find_matchesAt_shift;
    [|exact H0
     |intros pd Hin; exact (scanPositions_from _ _ _ _ _ (Nat.le_refl _) Hin)].
  fold sub. destruct (find _ (scanPositions sub 0 0)) as [pd|] eqn:Ef;
    [|reflexivity].
  apply find_some in Ef as [Hin _].
  apply (scanPositions_from _ _ _ _ _ (Nat.le_refl _)) in Hin.
  cbn [option_map fst]. unfold shiftFound.
  destruct (fst pd =? -1) eqn:E; [apply Z.eqb_eq in E; lia|reflexivity].
Qed.

(** What the matcher finds from a start offset is what it finds from the
    beginning of the rest of the text, moved by the offset. *)
Theorem findEndOfMath_from_offset (delimiter text : str) (startIndex : Z) :
  0 <= startIndex ->
  findEndOfMath delimiter text startIndex
  = (if findEndOfMath delimiter (skipn (Z.to_nat startIndex) text) 0 =? -1
     then -1
     else findEndOfMath delimiter (skipn (Z.to_nat startIndex) text) 0
          + startIndex).
Proof. exact (findEndOfMath_shift delimiter text startIndex). Qed.

Lemma findEndOfMath_from_offset_witness :
  0 <= 4
  /\ findEndOfMath (lit "$$") (lit "$$ { $$ } $$") 4
     = (if findEndOfMath (lit "$$") (lit " $$ } $$") 0 =? -1 then -1
        else findEndOfMath (lit "$$") (lit " $$ } $$") 0 + 4).
Proof.
  split; [lia|].
  apply (findEndOfMath_from_offset (lit "$$") (lit "$$ { $$ } $$") 4). lia.
Defined.

Lemma firstMatch_tail (delimiter text rest : str) (k : Z) :
  0 <= k -> skipn (Z.to_nat k) text = rest ->
  match find (matchesAt delimiter text) (scanPositions rest k 0) with
  | Some pd => fst pd
  | None => -1
  end
  = shiftFound k (findEndOfMath delimiter rest 0).
Proof.
  intros Hk Hs. rewrite <- Hs.
  rewrite <- findEndOfMath_shift by exact Hk.
  rewrite findEndOfMath_eq_firstMatch by exact Hk. reflexivity.
Qed.

(** A backslash at the start offset, where the token does not begin, hides
    the unit after it: whatever that unit is (a brace, the first unit of a
    token), the matcher goes on two units further with the same depth. *)
Theorem findEndOfMath_escape (delimiter rest : str) (c : ascii) :
  startsWith delimiter (backslash :: c :: rest) = false ->
  findEndOfMath delimiter (backslash :: c :: rest) 0
  = (if findEndOfMath delimiter rest 0 =? -1 then -1
     else findEndOfMath delimiter rest 0 + 2).
Proof.
  intros Hno. rewrite findEndOfMath_eq_firstMatch by lia. unfold firstMatch.
  change (skipn (Z.to_nat 0) (backslash :: c :: rest))
    with (backslash :: c :: rest).
  cbn [scanPositions].
  change (Ascii.eqb backslash backslash) with true. cbv iota.
  cbn [find]. unfold matchesAt at 1. cbn [fst snd]. unfold occursAt at 1.
  change (skipn (Z.to_nat 0) (backslash :: c :: rest))
    with (backslash :: c :: rest).
  rewrite Hno, andb_false_r.
  exact (firstMatch_tail delimiter (backslash :: c :: rest) rest 2
           ltac:(lia) eq_refl).
Qed.

Lemma findEndOfMath_escape_witness :
  startsWith (lit "$$") (backslash :: "{"%char :: lit " $$ x") = false
  /\ findEndOfMath (lit "$$") (backslash :: "{"%char :: lit " $$ x") 0 = 3.
Proof.
  split; [reflexivity|].
  rewrite (findEndOfMath_escape (lit "$$") (lit " $$ x") "{"%char eq_refl).
  reflexivity.
Defined.

Lemma find_plain_run (delimiter text : str) (inside : str) :
  forall (tail : str) (pos depth : Z),
    0 < depth ->
    forallb isPlainUnit inside = true ->
    find (matchesAt delimiter text) (scanPositions (inside ++ tail) pos depth)
    = find (matchesAt delimiter text)
        (scanPositions tail (pos + len inside) depth).
Proof.
  induction inside as [|c inside IH]; intros tail pos depth Hd Hplain.
  - change (len []) with 0. rewrite Z.add_0_r. reflexivity.
  - cbn [forallb] in Hplain. apply andb_true_iff in Hplain as [Hc Hplain].
    unfold isPlainUnit in Hc. apply negb_true_iff in Hc.
    apply orb_false_iff in Hc as [Hc Hr].
    apply orb_false_iff in Hc as [Hb Hl].
    cbn [app scanPositions]. rewrite Hb, Hl, Hr. cbn [find].
    unfold matchesAt at 1. cbn [fst snd].
    replace (depth <=? 0) with false by (symmetry; apply Z.leb_gt; lia).
    cbn [andb]. rewrite IH by assumption. do 2 f_equal.
    unfold len. cbn [List.length]. lia.
Qed.

(** A brace group at the start offset with plain units inside, where the
    token does not begin at the opening brace itself (so the token is not
    empty), is stepped over: a token in the group, or at its closing brace,
    is not a match, and the matcher goes on after the group with depth
    zero. *)
Theorem findEndOfMath_skips_group (delimiter inside rest : str) :
  forallb isPlainUnit inside = true ->
  startsWith delimiter (lbrace :: inside ++ rbrace :: rest) = false ->
  findEndOfMath delimiter (lbrace :: inside ++ rbrace :: rest) 0
  = (if findEndOfMath delimiter rest 0 =? -1 then -1
     else findEndOfMath delimiter rest 0 + (len inside + 2)).
Proof.
  intros Hplain Hno.
  rewrite findEndOfMath_eq_firstMatch by lia. unfold firstMatch.
  set (text := lbrace :: inside ++ rbrace :: rest) in *.
  change (skipn (Z.to_nat 0) text) with (lbrace :: inside ++ rbrace :: rest).
  cbn [scanPositions].
  change (Ascii.eqb lbrace backslash) with false.
  change (Ascii.eqb lbrace lbrace) with true. cbv iota.
  cbn [find]. unfold matchesAt at 1. cbn [fst snd]. unfold occursAt at 1.
  change (skipn (Z.to_nat 0) text) with text.
  rewrite Hno, andb_false_r.
  rewrite find_plain_run by (lia || exact Hplain).
  cbn [scanPositions].
  change (Ascii.eqb rbrace backslash) with false.
  change (Ascii.eqb rbrace lbrace) with false.
  change (Ascii.eqb rbrace rbrace) with true. cbv iota.
  cbn [find]. unfold matchesAt at 1. cbn [fst snd].
  change (0 + 1 <=? 0) with false. cbn [andb].
  pose proof (len_nonneg inside) as Hi.
  replace (0 + 1 + len inside + 1) with (len inside + 2) by lia.
  replace (0 + 1 - 1) with 0 by lia.
  apply firstMatch_tail; [lia|].
  unfold text.
  change (lbrace :: inside ++ rbrace :: rest)
    with ((lbrace :: inside) ++ [rbrace] ++ rest).
  rewrite app_assoc.
  replace (Z.to_nat (len inside + 2))
    with (List.length ((lbrace :: inside) ++ [rbrace]))
    by (rewrite length_app; unfold len; simpl; lia).
  rewrite skipn_app, skipn_all, Nat.sub_diag. reflexivity.
Qed.

Lemma findEndOfMath_skips_group_witness :
  forallb isPlainUnit (lit " $$ ") = true
  /\ startsWith (lit "$$") (lbrace :: lit " $$ " ++ rbrace :: lit " $$") = false
  /\ findEndOfMath (lit "$$") (lbrace :: lit " $$ " ++ rbrace :: lit " $$") 0
     = 7.
Proof.
  split; [reflexivity|]. split; [reflexivity|].
  rewrite (findEndOfMath_skips_group (lit "$$") (lit " $$ ") (lit " $$")
             eq_refl eq_refl).
  reflexivity.
Defined.

(** ** More on the segmenter *)

Lemma findEndOfMath_slice (delimiter text : str) (startIndex : Z) :
  findEndOfMath delimiter text startIndex <> -1 ->
  slice text (findEndOfMath delimiter text startIndex)
    (findEndOfMath delimiter text startIndex + len delimiter)
  = delimiter.
Proof.
  unfold findEndOfMath.
  destruct (findEndOfMath_loop _ delimiter text startIndex 0) as [r|] eqn:E;
    [|intros []; reflexivity].
  intros Hr. apply str_eqb_eq.
  exact (findEndOfMath_loop_found _ _ _ _ _ _ E Hr).
Qed.

Lemma indexOfFrom_occurs (search rest : str) :
  forall k, 0 <= k ->
    indexOfFrom search rest k <> -1 ->
    startsWith search
      (skipn (Z.to_nat (indexOfFrom search rest k - k)) rest) = true.
Proof.
  induction rest as [|c rest IH]; intros k Hk; cbn [indexOfFrom].
  - destruct (startsWith search []) eqn:E; [|intros []; reflexivity].
    intros _. rewrite Z.sub_diag. exact E.
  - destruct (startsWith search (c :: rest)) eqn:E.
    + intros _. rewrite Z.sub_diag. exact E.
    + intros Hr. specialize (IH (k + 1) ltac:(lia) Hr).
      destruct (indexOfFrom_bounds search rest (k + 1)) as [B|B];
        [contradiction|].
      replace (Z.to_nat (indexOfFrom search rest (k + 1) - k))
        with (S (Z.to_nat (indexOfFrom search rest (k + 1) - (k + 1))))
        by lia.
      exact IH.
Qed.

Lemma indexOf_occurs (s search : str) (position : Z) :
  0 <= position <= len s ->
  indexOf s search position <> -1 ->
  occursAt search s (indexOf s search position) = true.
Proof.
  intros H Hr. unfold occursAt.
  destruct (indexOf_bounds s search position H) as [B|B]; [contradiction|].
  revert Hr B. unfold indexOf. rewrite Z.max_l, Z.min_l by lia.
  intros Hr B.
  pose proof (indexOfFrom_occurs search _ position ltac:(lia) Hr) as Ho.
  rewrite skipn_skipn in Ho.
  replace (Z.to_nat (indexOfFrom search (skipn (Z.to_nat position) s) position
                     - position) + Z.to_nat position)%nat
    with (Z.to_nat (indexOfFrom search (skipn (Z.to_nat position) s) position))
    in Ho by lia.
  exact Ho.
Qed.

Lemma slice_app (s : str) (a b c : Z) :
  0 <= a <= b -> b <= c <= len s ->
  slice s a b ++ slice s b c = slice s a c.
Proof.
  intros Hab Hbc.
  apply (app_inv_head (firstn (Z.to_nat a) s)).
  rewrite app_assoc, !firstn_slice by lia. reflexivity.
Qed.

Lemma slice_token (token text : str) (i : Z) :
  0 <= i -> occursAt token text i = true ->
  slice text i (i + len token) = token.
Proof.
  intros Hi Ho. apply str_eqb_eq. rewrite slice_eqb_occurs by exact Hi.
  exact Ho.
Qed.

Lemma sliceFrom_zero (text : str) : sliceFrom text 0 = text.
Proof.
  pose proof (firstn_sliceFrom text 0) as H. cbn [Z.to_nat firstn app] in H.
  apply H. pose proof (len_nonneg text). lia.
Qed.

(** *** The accumulator only grows *)

Lemma splitAtDelimiters_while_acc (fuel : nat) (text l r : str)
    (style : mathstyle) :
  forall lookingForLeft currIndex finalData,
    splitAtDelimiters_while fuel text l r style lookingForLeft currIndex
      finalData
    = appended finalData
        (splitAtDelimiters_while fuel text l r style lookingForLeft currIndex
           []).
Proof.
  induction fuel as [|fuel IH]; intros lfl c fd; [reflexivity|].
  cbn [splitAtDelimiters_while].
  destruct lfl.
  - destruct (_ =? -1); [cbn; rewrite app_nil_r; reflexivity|].
    rewrite (IH _ _ (fd ++ _)), (IH _ _ ([] ++ _)).
    destruct (splitAtDelimiters_while fuel _ _ _ _ _ _ []) as [[c' mid]|];
      [|reflexivity].
    cbn [appended app]. rewrite <- app_assoc. reflexivity.
  - destruct (_ =? -1); [cbn; rewrite app_nil_r; reflexivity|].
    rewrite (IH _ _ (fd ++ _)), (IH _ _ ([] ++ _)).
    destruct (splitAtDelimiters_while fuel _ _ _ _ _ _ []) as [[c' mid]|];
      [|reflexivity].
    cbn [appended app]. rewrite <- app_assoc. reflexivity.
Qed.

Lemma splitAtDelimiters_text_acc (fuel : nat) (text l r : str)
    (style : mathstyle) (finalData : list segment) :
  splitAtDelimiters_text fuel text l r style finalData
  = option_map (app finalData)
      (splitAtDelimiters_text fuel text l r style []).
Proof.
  unfold splitAtDelimiters_text.
  destruct (indexOf text l 0 =? -1).
  - rewrite splitAtDelimiters_while_acc.
    destruct (splitAtDelimiters_while fuel _ _ _ _ _ _ []) as [[c' mid]|];
      [|reflexivity].
    cbn [appended option_map app]. rewrite <- app_assoc. reflexivity.
  - rewrite splitAtDelimiters_while_acc,
      (splitAtDelimiters_while_acc _ _ _ _ _ _ _ ([] ++ _)).
    destruct (splitAtDelimiters_while fuel _ _ _ _ _ _ []) as [[c' mid]|];
      [|reflexivity].
    cbn [appended option_map app]. rewrite <- !app_assoc. reflexivity.
Qed.

Lemma splitAtDelimiters_for_acc (fuel : nat) (l r : str) (style : mathstyle)
    (startData : list segment) :
  forall finalData,
    splitAtDelimiters_for fuel startData l r style finalData
    = option_map (app finalData)
        (splitAtDelimiters_for fuel startData l r style []).
Proof.
  induction startData as [|seg rest IH]; intros fd; cbn [splitAtDelimiters_for].
  - cbn. rewrite app_nil_r. reflexivity.
  - destruct seg as [text|d rw st].
    + rewrite splitAtDelimiters_text_acc.
      destruct (splitAtDelimiters_text fuel text l r style []) as [pieces|];
        [|reflexivity].
      cbn [option_map]. rewrite (IH (fd ++ pieces)), (IH pieces).
      destruct (splitAtDelimiters_for fuel rest l r style []) as [out|];
        [|reflexivity].
      cbn [option_map]. rewrite app_assoc. reflexivity.
    + rewrite (IH (fd ++ _)), (IH ([] ++ _)).
      destruct (splitAtDelimiters_for fuel rest l r style []) as [out|];
        [|reflexivity].
      cbn [option_map app]. rewrite <- app_assoc. reflexivity.
Qed.

(** The pass handles each segment on its own. *)
Lemma splitAtDelimiters_cons (fuel : nat) (l r : str) (style : mathstyle)
    (seg : segment) (rest : list segment) :
  splitAtDelimiters fuel (seg :: rest) l r style
  = match splitAtDelimiters fuel [seg] l r style,
          splitAtDelimiters fuel rest l r style with
    | Some pieces, Some out => Some (pieces ++ out)
    | _, _ => None
    end.
Proof.
  unfold splitAtDelimiters. cbn [splitAtDelimiters_for].
  destruct seg as [text|d rw st].
  - destruct (splitAtDelimiters_text fuel text l r style []) as [pieces|];
      [|reflexivity].
    rewrite splitAtDelimiters_for_acc.
    destruct (splitAtDelimiters_for fuel rest l r style []) as [out|];
      reflexivity.
  - rewrite splitAtDelimiters_for_acc.
    destruct (splitAtDelimiters_for fuel rest l r style []) as [out|];
      reflexivity.
Qed.

Lemma splitAtDelimiters_app (fuel : nat) (l r : str) (style : mathstyle)
    (a b : list segment) :
  splitAtDelimiters fuel (a ++ b) l r style
  = match splitAtDelimiters fuel a l r style,
          splitAtDelimiters fuel b l r style with
    | Some x, Some y => Some (x ++ y)
    | _, _ => None
    end.
Proof.
  induction a as [|seg a IH].
  - cbn [app]. change (splitAtDelimiters fuel [] l r style) with (Some (@nil segment)).
    destruct (splitAtDelimiters fuel b l r style); reflexivity.
  - cbn [app]. rewrite (splitAtDelimiters_cons _ _ _ _ seg (a ++ b)),
      (splitAtDelimiters_cons _ _ _ _ seg a), IH.
    destruct (splitAtDelimiters fuel [seg] l r style) as [pieces|];
      [|reflexivity].
    destruct (splitAtDelimiters fuel a l r style) as [x|]; [|reflexivity].
    destruct (splitAtDelimiters fuel b l r style) as [y|]; [|reflexivity].
    rewrite app_assoc. reflexivity.
Qed.

(** A pass leaves a math segment where it is and as it is, and splits what
    comes before it and what comes after it as it does on their own: a later
    pass never scans a math segment again. *)
Theorem splitAtDelimiters_math_passes (fuel : nat) (l r : str)
    (style : mathstyle) (pre post : list segment) (d rawData : str)
    (st : mathstyle) :
  splitAtDelimiters fuel (pre ++ MathSeg d rawData st :: post) l r style
  = match splitAtDelimiters fuel pre l r style,
          splitAtDelimiters fuel post l r style with
    | Some pre', Some post' => Some (pre' ++ MathSeg d rawData st :: post')
    | _, _ => None
    end.
Proof.
  rewrite splitAtDelimiters_app, splitAtDelimiters_cons.
  change (splitAtDelimiters fuel [MathSeg d rawData st] l r style)
    with (Some [MathSeg d rawData st]).
  destruct (splitAtDelimiters fuel pre l r style) as [pre'|]; [|reflexivity].
  destruct (splitAtDelimiters fuel post l r style) as [post'|]; reflexivity.
Qed.

(** *** Text without a left token *)

Lemma splitAtDelimiters_text_plain (fuel : nat) (text l r : str)
    (style : mathstyle) (finalData : list segment) :
  indexOf text l 0 = -1 ->
  splitAtDelimiters_text (S fuel) text l r style finalData
  = Some (finalData ++ [TextSeg text]).
Proof.
  intros E. unfold splitAtDelimiters_text. rewrite E.
  change (-1 =? -1) with true. cbv beta iota zeta.
  cbn [splitAtDelimiters_while]. rewrite E.
  change (-1 =? -1) with true. cbv beta iota zeta.
  rewrite sliceFrom_zero. reflexivity.
Qed.

Lemma splitWithDelimiters_for_plain (fuel : nat) (text : str)
    (style : mathstyle) (pairs : list (str * str)) :
  noLeftToken text pairs = true ->
  splitWithDelimiters_for (S fuel) [TextSeg text] pairs style
  = Some [TextSeg text].
Proof.
  induction pairs as [|[l r] pairs IH]; [reflexivity|].
  cbn [noLeftToken forallb fst]. intros H.
  apply andb_true_iff in H as [Hl Hrest]. apply Z.eqb_eq in Hl.
  cbn [splitWithDelimiters_for fst snd]. unfold splitAtDelimiters.
  cbn [splitAtDelimiters_for].
  rewrite splitAtDelimiters_text_plain by exact Hl. cbn [app].
  apply IH. exact Hrest.
Qed.

(** A text in which no left token of the configuration occurs is one text
    segment, the text itself, whatever the right tokens are. *)
Theorem splitWithDelimiters_no_token (fuel : nat) (text : str)
    (delimiters : Delimiters) :
  noLeftToken text (inline delimiters ++ display delimiters) = true ->
  splitWithDelimiters (S fuel) text delimiters = Some [TextSeg text].
Proof.
  unfold noLeftToken. rewrite forallb_app. intros H.
  apply andb_true_iff in H as [Hi Hd]. unfold splitWithDelimiters.
  rewrite splitWithDelimiters_for_plain by exact Hi.
  apply splitWithDelimiters_for_plain. exact Hd.
Qed.

Lemma splitWithDelimiters_plain (fuel : nat) (text : str)
    (delimiters : Delimiters) :
  noLeftToken text (inline delimiters ++ display delimiters) = true ->
  splitWithDelimiters (S fuel) text delimiters = Some [TextSeg text].
Proof.
  unfold noLeftToken. rewrite forallb_app. intros H.
  apply andb_true_iff in H as [Hi Hd]. unfold splitWithDelimiters.
  rewrite splitWithDelimiters_for_plain by exact Hi.
  apply splitWithDelimiters_for_plain. exact Hd.
Qed.

Lemma splitWithDelimiters_no_token_witness :
  noLeftToken (lit "price: $5 (approx.)")
    (inline (delimiters (TeX defaultOptions))
     ++ display (delimiters (TeX defaultOptions))) = true
  /\ splitWithDelimiters 1 (lit "price: $5 (approx.)")
       (delimiters (TeX defaultOptions))
     = Some [TextSeg (lit "price: $5 (approx.)")].
Proof.
  split; [reflexivity|].
  apply (splitWithDelimiters_no_token 0 (lit "price: $5 (approx.)")
           (delimiters (TeX defaultOptions))).
  reflexivity.
Defined.

(** A left token without a right token after it: the text is cut in two at
    the left token, which stays at the head of the second text segment; no
    math segment is made and nothing is lost. *)
Theorem splitAtDelimiters_unmatched_left (fuel : nat) (text l r : str)
    (style : mathstyle) :
  indexOf text l 0 <> -1 ->
  findEndOfMath r text (indexOf text l 0 + len l) = -1 ->
  splitAtDelimiters (S fuel) [TextSeg text] l r style
  = Some [TextSeg (slice text 0 (indexOf text l 0));
          TextSeg (sliceFrom text (indexOf text l 0))]
  /\ slice text 0 (indexOf text l 0) ++ sliceFrom text (indexOf text l 0)
     = text
  /\ startsWith l (sliceFrom text (indexOf text l 0)) = true.
Proof.
  intros Hl Hr. pose proof (len_nonneg text) as Ht.
  destruct (indexOf_bounds text l 0 ltac:(lia)) as [B|B]; [contradiction|].
  pose proof (len_nonneg l) as Hll.
  split; [|split].
  - unfold splitAtDelimiters. cbn [splitAtDelimiters_for].
    unfold splitAtDelimiters_text.
    destruct (indexOf text l 0 =? -1) eqn:E; [apply Z.eqb_eq in E; lia|].
    cbn [splitAtDelimiters_while]. rewrite Hr. reflexivity.
  - unfold sliceFrom. rewrite slice_app by lia.
    exact (sliceFrom_zero text).
  - pose proof (indexOf_occurs text l 0 ltac:(lia) Hl) as Ho.
    unfold occursAt in Ho.
    replace (sliceFrom text (indexOf text l 0))
      with (skipn (Z.to_nat (indexOf text l 0)) text); [exact Ho|].
    unfold sliceFrom. rewrite slice_inside by lia.
    rewrite Z.min_id, Z.min_l by lia.
    rewrite firstn_all2; [reflexivity|].
    rewrite length_skipn. unfold len. lia.
Qed.

Lemma splitAtDelimiters_unmatched_left_witness :
  indexOf (lit "see $$ x") (lit "$$") 0 <> -1
  /\ findEndOfMath (lit "$$") (lit "see $$ x")
       (indexOf (lit "see $$ x") (lit "$$") 0 + len (lit "$$")) = -1
  /\ splitAtDelimiters 1 [TextSeg (lit "see $$ x")] (lit "$$") (lit "$$")
       displaystyle
     = Some [TextSeg (lit "see "); TextSeg (lit "$$ x")].
Proof.
  split; [discriminate|]. split; [reflexivity|].
  apply (proj1 (splitAtDelimiters_unmatched_left 0 (lit "see $$ x") (lit "$$")
                  (lit "$$") displaystyle ltac:(discriminate) eq_refl)).
Defined.

(** *** The shape of math segments *)

Lemma splitAtDelimiters_while_keeps (Q : segment -> Prop) (fuel : nat)
    (text l r : str) (style : mathstyle) :
  (forall t, Q (TextSeg t)) ->
  (forall d, Q (MathSeg d (l ++ d ++ r) style)) ->
  forall lookingForLeft currIndex finalData currIndex' finalData',
    0 <= currIndex <= len text ->
    (lookingForLeft = false -> occursAt l text currIndex = true) ->
    Forall Q finalData ->
    splitAtDelimiters_while fuel text l r style lookingForLeft currIndex
      finalData = Some (currIndex', finalData') ->
    Forall Q finalData'.
Proof.
  intros Ht Hm. pose proof (len_nonneg l) as Hl.
  pose proof (len_nonneg r) as Hr.
  induction fuel as [|fuel IH]; intros lfl c fd c' fd' Hc Ho Hfd;
    [discriminate|].
  cbn [splitAtDelimiters_while]. destruct lfl.
  - destruct (indexOf text l c =? -1) eqn:E;
      [intros E'; inversion E'; subst; exact Hfd|].
    apply Z.eqb_neq in E.
    destruct (indexOf_bounds text l c Hc) as [B|B]; [contradiction|].
    apply IH; [lia| |].
    + intros _. apply indexOf_occurs; assumption.
    + apply Forall_app. split; [exact Hfd|]. constructor; [apply Ht|constructor].
  - destruct (findEndOfMath r text (c + len l) =? -1) eqn:E;
      [intros E'; inversion E'; subst; exact Hfd|].
    apply Z.eqb_neq in E.
    destruct (findEndOfMath_bounds r text (c + len l)) as [B|B];
      [lia|contradiction|].
    apply IH; [lia|discriminate|].
    apply Forall_app. split; [exact Hfd|]. constructor; [|constructor].
    set (next := findEndOfMath r text (c + len l)) in *.
    assert (Hraw : slice text c (next + len r)
                   = l ++ slice text (c + len l) next ++ r).
    { rewrite <- (slice_app text c (c + len l) (next + len r)) by lia.
      rewrite <- (slice_app text (c + len l) next (next + len r)) by lia.
      rewrite (slice_token l text c) by (lia || exact (Ho eq_refl)).
      unfold next. rewrite findEndOfMath_slice by exact E. reflexivity. }
    rewrite Hraw. apply Hm.
Qed.

Lemma splitAtDelimiters_text_keeps (Q : segment -> Prop) (fuel : nat)
    (text l r : str) (style : mathstyle) (finalData out : list segment) :
  (forall t, Q (TextSeg t)) ->
  (forall d, Q (MathSeg d (l ++ d ++ r) style)) ->
  Forall Q finalData ->
  splitAtDelimiters_text fuel text l r style finalData = Some out ->
  Forall Q out.
Proof.
  intros Ht Hm Hfd. unfold splitAtDelimiters_text.
  pose proof (len_nonneg text) as Hlen.
  destruct (indexOf text l 0 =? -1) eqn:E.
  - destruct (splitAtDelimiters_while _ _ _ _ _ _ _ _) as [[c fd]|] eqn:Ew;
      [|discriminate].
    intros E'; inversion E'; subst.
    apply Forall_app. split; [|constructor; [apply Ht|constructor]].
    eapply (splitAtDelimiters_while_keeps Q); try exact Ew; try assumption;
      [lia|discriminate].
  - apply Z.eqb_neq in E.
    destruct (indexOf_bounds text l 0 ltac:(lia)) as [B|B]; [contradiction|].
    pose proof (len_nonneg l).
    destruct (splitAtDelimiters_while _ _ _ _ _ _ _ _) as [[c fd]|] eqn:Ew;
      [|discriminate].
    intros E'; inversion E'; subst.
    apply Forall_app. split; [|constructor; [apply Ht|constructor]].
    eapply (splitAtDelimiters_while_keeps Q); try exact Ew; try assumption;
      [lia| |].
    + intros _. apply indexOf_occurs; [lia|exact E].
    + apply Forall_app. split; [exact Hfd|].
      constructor; [apply Ht|constructor].
Qed.

Lemma splitAtDelimiters_for_keeps (Q : segment -> Prop) (fuel : nat)
    (l r : str) (style : mathstyle) (startData : list segment) :
  (forall t, Q (TextSeg t)) ->
  (forall d, Q (MathSeg d (l ++ d ++ r) style)) ->
  Forall Q startData ->
  forall finalData out,
    Forall Q finalData ->
    splitAtDelimiters_for fuel startData l r style finalData = Some out ->
    Forall Q out.
Proof.
  intros Ht Hm. induction startData as [|seg rest IH]; intros Hs fd out Hfd;
    cbn [splitAtDelimiters_for].
  - intros E; inversion E; subst; exact Hfd.
  - inversion Hs as [|? ? Hseg Hrest]; subst.
    destruct seg as [text|d rw st].
    + destruct (splitAtDelimiters_text _ _ _ _ _ _) as [fd1|] eqn:E1;
        [|discriminate].
      apply IH; [exact Hrest|].
      exact (splitAtDelimiters_text_keeps Q _ _ _ _ _ _ _ Ht Hm Hfd E1).
    + apply IH; [exact Hrest|].
      apply Forall_app. split; [exact Hfd|]. constructor; [exact Hseg|constructor].
Qed.

Lemma splitWithDelimiters_for_keeps (Q : segment -> Prop) (fuel : nat)
    (style : mathstyle) (pairs : list (str * str)) :
  (forall t, Q (TextSeg t)) ->
  (forall pair d, In pair pairs ->
                  Q (MathSeg d (fst pair ++ d ++ snd pair) style)) ->
  forall data out,
    Forall Q data ->
    splitWithDelimiters_for fuel data pairs style = Some out ->
    Forall Q out.
Proof.
  intros Ht. induction pairs as [|pair rest IH]; intros Hm data out Hd;
    cbn [splitWithDelimiters_for].
  - intros E; inversion E; subst; exact Hd.
  - destruct (splitAtDelimiters _ _ _ _ _) as [d1|] eqn:E1; [|discriminate].
    apply IH; [intros p d Hin; apply Hm; right; exact Hin|].
    unfold splitAtDelimiters in E1.
    eapply (splitAtDelimiters_for_keeps Q); try exact E1; try assumption;
      [|constructor].
    intros d. apply (Hm pair d). left; reflexivity.
Qed.

(** In every math segment the raw field is the source between the left and
    the right token of a configured pair: an inline pair for the text style,
    a display pair for the display style. *)
Theorem splitWithDelimiters_wraps (fuel : nat) (text : str)
    (delimiters : Delimiters) (data : list segment) :
  splitWithDelimiters fuel text delimiters = Some data ->
  Forall (wellWrapped delimiters) data.
Proof.
  unfold splitWithDelimiters.
  destruct (splitWithDelimiters_for _ _ (inline _) _) as [d1|] eqn:E1;
    [|discriminate].
  intros E2.
  eapply (splitWithDelimiters_for_keeps (wellWrapped delimiters));
    try exact E2.
  - intros t; exact I.
  - intros pair d Hin. exists pair. split; [reflexivity|].
    right. split; [reflexivity|exact Hin].
  - eapply (splitWithDelimiters_for_keeps (wellWrapped delimiters));
      try exact E1.
    + intros t; exact I.
    + intros pair d Hin. exists pair. split; [reflexivity|].
      left. split; [reflexivity|exact Hin].
    + constructor; [exact I|constructor].
Qed.

Lemma splitWithDelimiters_wraps_witness :
  splitWithDelimiters 50 Sample.sampleText (delimiters (TeX defaultOptions))
  = Some [TextSeg (lit "a ");
          MathSeg (lit "x") (lit "\(x\)") textstyle;
          TextSeg (lit " ");
          MathSeg (lit " {$$} ") (lit "$$ {$$} $$") displaystyle;
          TextSeg (lit " "); TextSeg (lit "\[ b")]
  /\ Forall (wellWrapped (delimiters (TeX defaultOptions)))
       [TextSeg (lit "a ");
        MathSeg (lit "x") (lit "\(x\)") textstyle;
        TextSeg (lit " ");
        MathSeg (lit " {$$} ") (lit "$$ {$$} $$") displaystyle;
        TextSeg (lit " "); TextSeg (lit "\[ b")].
Proof.
  split; [reflexivity|].
  apply (splitWithDelimiters_wraps 50 Sample.sampleText
           (delimiters (TeX defaultOptions))).
  reflexivity.
Defined.

(** *** Text and math segments alternate *)

Lemma alternates_app (a b : list segment) :
  forall p,
    alternates p (a ++ b) = alternates p a && alternates (lastMath p a) b.
Proof.
  induction a as [|seg a IH]; intros p; [reflexivity|].
  cbn [app alternates lastMath]. rewrite IH, andb_assoc. reflexivity.
Qed.

Lemma lastMath_app (a b : list segment) :
  forall p, lastMath p (a ++ b) = lastMath (lastMath p a) b.
Proof.
  induction a as [|seg a IH]; intros p; [reflexivity|].
  cbn [app lastMath]. apply IH.
Qed.

Lemma splitAtDelimiters_while_alternates (fuel : nat) (text l r : str)
    (style : mathstyle) :
  forall lookingForLeft currIndex currIndex' mid,
    splitAtDelimiters_while fuel text l r style lookingForLeft currIndex []
    = Some (currIndex', mid) ->
    forall p, alternates (p && lookingForLeft) mid = true.
Proof.
  induction fuel as [|fuel IH]; intros lfl c c' mid; [discriminate|].
  cbn [splitAtDelimiters_while]. destruct lfl.
  - destruct (_ =? -1); [intros E p; inversion E; reflexivity|].
    rewrite splitAtDelimiters_while_acc.
    destruct (splitAtDelimiters_while fuel _ _ _ _ _ _ []) as [[c1 mid1]|]
      eqn:E1; [|discriminate].
    intros E p; inversion E; subst. cbn [app alternates isMath].
    rewrite andb_false_r. exact (IH _ _ _ _ E1 false).
  - destruct (_ =? -1); [intros E p; inversion E; reflexivity|].
    rewrite splitAtDelimiters_while_acc.
    destruct (splitAtDelimiters_while fuel _ _ _ _ _ _ []) as [[c1 mid1]|]
      eqn:E1; [|discriminate].
    intros E p; inversion E; subst. cbn [app alternates isMath].
    rewrite andb_false_r. exact (IH _ _ _ _ E1 true).
Qed.

Lemma splitAtDelimiters_text_alternates (fuel : nat) (text l r : str)
    (style : mathstyle) (pieces : list segment) :
  splitAtDelimiters_text fuel text l r style [] = Some pieces ->
  forall p, alternates p pieces = true /\ lastMath p pieces = false.
Proof.
  unfold splitAtDelimiters_text.
  destruct (indexOf text l 0 =? -1).
  - destruct (splitAtDelimiters_while _ _ _ _ _ _ _ _) as [[c mid]|] eqn:Ew;
      [|discriminate].
    intros E p; inversion E; subst.
    rewrite alternates_app, lastMath_app. cbn [alternates lastMath isMath].
    rewrite andb_false_r. split; [|reflexivity].
    pose proof (splitAtDelimiters_while_alternates _ _ _ _ _ _ _ _ _ Ew p)
      as H.
    rewrite andb_true_r in H. rewrite H. reflexivity.
  - rewrite splitAtDelimiters_while_acc.
    destruct (splitAtDelimiters_while _ _ _ _ _ _ _ []) as [[c mid]|] eqn:Ew;
      [|discriminate].
    cbn [appended]. intros E p; inversion E; subst.
    cbn [alternates lastMath isMath].
    rewrite alternates_app, lastMath_app. cbn [alternates lastMath isMath].
    rewrite !andb_false_r. split; [|reflexivity].
    pose proof (splitAtDelimiters_while_alternates _ _ _ _ _ _ _ _ _ Ew false)
      as H.
    cbn [andb] in H. rewrite H. reflexivity.
Qed.

Lemma splitAtDelimiters_alternates (fuel : nat) (l r : str)
    (style : mathstyle) (data : list segment) :
  forall out,
    splitAtDelimiters fuel data l r style = Some out ->
    forall p,
      alternates p out = alternates p data
      /\ lastMath p out = lastMath p data.
Proof.
  induction data as [|seg rest IH]; intros out.
  - intros E p; inversion E; subst. split; reflexivity.
  - rewrite splitAtDelimiters_cons.
    destruct (splitAtDelimiters fuel [seg] l r style) as [pieces|] eqn:E1;
      [|discriminate].
    destruct (splitAtDelimiters fuel rest l r style) as [out'|] eqn:E2;
      [|discriminate].
    intros E p; inversion E; subst.
    rewrite alternates_app, lastMath_app.
    destruct seg as [t|d rw st].
    + unfold splitAtDelimiters in E1. cbn [splitAtDelimiters_for] in E1.
      destruct (splitAtDelimiters_text fuel t l r style []) as [x|] eqn:Et;
        [|discriminate].
      inversion E1; subst x.
      destruct (splitAtDelimiters_text_alternates _ _ _ _ _ _ Et p) as [Ha Hl].
      rewrite Ha, Hl. cbn [alternates lastMath isMath].
      rewrite andb_false_r. cbn [negb andb].
      exact (IH out' eq_refl false).
    + inversion E1; subst pieces. cbn [alternates lastMath isMath].
      destruct (IH out' eq_refl true) as [Ha Hl]. rewrite Ha, Hl.
      rewrite andb_true_r. split; reflexivity.
Qed.

Lemma splitWithDelimiters_for_alternates (fuel : nat) (style : mathstyle)
    (pairs : list (str * str)) :
  forall data out,
    splitWithDelimiters_for fuel data pairs style = Some out ->
    forall p,
      alternates p out = alternates p data
      /\ lastMath p out = lastMath p data.
Proof.
  induction pairs as [|pair rest IH]; intros data out;
    cbn [splitWithDelimiters_for].
  - intros E p; inversion E; subst. split; reflexivity.
  - destruct (splitAtDelimiters _ _ _ _ _) as [d1|] eqn:E1; [|discriminate].
    intros E p.
    destruct (IH _ _ E p) as [Ha Hl].
    destruct (splitAtDelimiters_alternates _ _ _ _ _ _ E1 p) as [Ha1 Hl1].
    split; congruence.
Qed.

Lemma lastMath_text_last (data : list segment) :
  lastMath true data = false ->
  exists init t, data = init ++ [TextSeg t].
Proof.
  destruct data as [|seg data] using rev_ind; [discriminate|].
  rewrite lastMath_app. cbn [lastMath].
  destruct seg as [t|d rw st]; [|discriminate].
  intros _. exists data, t. reflexivity.
Qed.

(** The segments of a text begin with a text segment and end with a text
    segment, and no math segment comes right after a math segment. *)
Theorem splitWithDelimiters_alternates (fuel : nat) (text : str)
    (delimiters : Delimiters) (data : list segment) :
  splitWithDelimiters fuel text delimiters = Some data ->
  noAdjacentMath data = true
  /\ (exists t rest, data = TextSeg t :: rest)
  /\ (exists init t, data = init ++ [TextSeg t]).
Proof.
  unfold splitWithDelimiters.
  destruct (splitWithDelimiters_for _ _ (inline _) _) as [d1|] eqn:E1;
    [|discriminate].
  intros E2.
  assert (H : forall p, alternates p data = true /\ lastMath p data = false).
  { intros p.
    destruct (splitWithDelimiters_for_alternates _ _ _ _ _ E2 p) as [Ha Hl].
    destruct (splitWithDelimiters_for_alternates _ _ _ _ _ E1 p) as [Ha1 Hl1].
    rewrite Ha, Hl, Ha1, Hl1. cbn. rewrite andb_false_r. split; reflexivity. }
  split; [exact (proj1 (H false))|]. split.
  - destruct (H true) as [Ha Hl]. destruct data as [|[t|d rw st] rest].
    + discriminate.
    + exists t, rest. reflexivity.
    + discriminate.
  - apply lastMath_text_last. exact (proj2 (H true)).
Qed.

Lemma splitWithDelimiters_alternates_witness :
  splitWithDelimiters 50 (lit "$$x$$$$y$$") (delimiters (TeX defaultOptions))
  = Some [TextSeg [];
          MathSeg (lit "x") (lit "$$x$$") displaystyle;
          TextSeg [];
          MathSeg (lit "y") (lit "$$y$$") displaystyle;
          TextSeg []]
  /\ noAdjacentMath
       [TextSeg [];
        MathSeg (lit "x") (lit "$$x$$") displaystyle;
        TextSeg [];
        MathSeg (lit "y") (lit "$$y$$") displaystyle;
        TextSeg []] = true.
Proof.
  split; [reflexivity|].
  apply (splitWithDelimiters_alternates 50 (lit "$$x$$$$y$$")
           (delimiters (TeX defaultOptions))).
  reflexivity.
Defined.

(** ** More on the tree walker *)

Lemma skipWhiteSpace_app (ws rest : str) :
  forallb isWhiteSpace ws = true ->
  skipWhiteSpace (ws ++ rest) = skipWhiteSpace rest.
Proof.
  induction ws as [|c ws IH]; [reflexivity|]. cbn [forallb app skipWhiteSpace].
  intros H. apply andb_true_iff in H as [Hc Hws]. rewrite Hc. exact (IH Hws).
Qed.

Lemma skipWhiteSpace_split (text : str) :
  exists ws, forallb isWhiteSpace ws = true /\ text = ws ++ skipWhiteSpace text.
Proof.
  induction text as [|c text [ws [Hws E]]]; [exists []; split; reflexivity|].
  cbn [skipWhiteSpace]. destruct (isWhiteSpace c) eqn:Ec.
  - exists (c :: ws). cbn [forallb app]. rewrite Ec, Hws.
    split; [reflexivity|]. f_equal. exact E.
  - exists []. split; reflexivity.
Qed.

(** The test for an environment, [/^\s*\\begin/], holds of the texts that
    are white space followed by the marker and anything, and of no other. *)
Theorem matchesBegin_spec (text : str) :
  matchesBegin text = true <->
  exists ws rest,
    forallb isWhiteSpace ws = true /\ text = ws ++ lit "\begin" ++ rest.
Proof.
  unfold matchesBegin. split.
  - intros H. apply startsWith_app in H as [rest E].
    destruct (skipWhiteSpace_split text) as [ws [Hws Et]].
    exists ws, rest. split; [exact Hws|]. rewrite Et at 1. rewrite E.
    reflexivity.
  - intros (ws & rest & Hws & ->). rewrite skipWhiteSpace_app by exact Hws.
    reflexivity.
Qed.

Lemma matchesBegin_spec_witness :
  matchesBegin (lit "  \begin{matrix}") = true.
Proof.
  apply (proj2 (matchesBegin_spec (lit "  \begin{matrix}"))).
  exists (lit "  "), (lit "{matrix}"). split; reflexivity.
Defined.

Lemma lowerUnit_idem (c : ascii) : lowerUnit (lowerUnit c) = lowerUnit c.
Proof.
  destruct c as [[] [] [] [] [] [] [] []]; reflexivity.
Qed.

Lemma toLowerCase_idem (s : str) : toLowerCase (toLowerCase s) = toLowerCase s.
Proof.
  unfold toLowerCase. rewrite map_map. apply map_ext. exact lowerUnit_idem.
Qed.

Section WalkerMore.

#[local] Set Warnings "-notation-for-abbreviation".

Variable regexp : Type.
Variable RegExp_new : str -> option regexp.
Variable RegExp_test : regexp -> str -> bool.
Variable parseHTML : str -> list node.
Variable latexToMarkup : str -> mathstyle -> completion str.

Local Notation scanText' := (scanText regexp parseHTML latexToMarkup).
Local Notation scanElement_for' :=
  (scanElement_for regexp RegExp_test parseHTML latexToMarkup).
Local Notation scanElement' :=
  (scanElement regexp RegExp_test parseHTML latexToMarkup).
Local Notation scanElementAt' :=
  (scanElementAt regexp RegExp_test parseHTML latexToMarkup).
Local Notation renderMathInElement' :=
  (renderMathInElement regexp RegExp_new RegExp_test parseHTML latexToMarkup).
Local Notation shouldRender' := (shouldRender regexp RegExp_test).
Local Notation options' := (options regexp).
Local Notation segmentNode' := (segmentNode parseHTML latexToMarkup).
Local Notation reachable' := (reachableNodes regexp RegExp_test).

(** *** Tag names and the skip list *)

(** The policy does not depend on the case of the tag name, and an entry of
    [skipTags] that is not in lower case never matches: the list without it
    gives the same decision for every element. *)
Theorem skipTags_lower_case (tag : str) (tags : list str)
    (ic pc : str) (tex : TeXOptions) (ip pp : regexp)
    (nodeName className : str) :
  toLowerCase tag <> tag ->
  shouldRender'
    {| given := {| skipTags := tags; ignoreClass := ic; processClass := pc;
                   TeX := tex |};
       ignoreClassPattern := ip; processClassPattern := pp |}
    (toLowerCase nodeName) className
  = shouldRender'
      {| given := {| skipTags := tags; ignoreClass := ic; processClass := pc;
                     TeX := tex |};
         ignoreClassPattern := ip; processClassPattern := pp |}
      nodeName className
  /\ shouldRender'
       {| given := {| skipTags := tag :: tags; ignoreClass := ic;
                      processClass := pc; TeX := tex |};
          ignoreClassPattern := ip; processClassPattern := pp |}
       nodeName className
     = shouldRender'
         {| given := {| skipTags := tags; ignoreClass := ic;
                        processClass := pc; TeX := tex |};
            ignoreClassPattern := ip; processClassPattern := pp |}
         nodeName className.
Proof.
  intros Htag. unfold shouldRender. cbn [given skipTags ignoreClassPattern
                                         processClassPattern].
  rewrite toLowerCase_idem. split; [reflexivity|].
  unfold includes. cbn [existsb].
  destruct (str_eqb (toLowerCase nodeName) tag) eqn:E; [|reflexivity].
  apply str_eqb_eq in E. exfalso. apply Htag. rewrite <- E.
  apply toLowerCase_idem.
Qed.

(** *** A renderer that always fails *)

Lemma segmentNode_text (data : list segment) :
  (forall source style, exists e, latexToMarkup source style = Throw e) ->
  flat_map textOf (map segmentNode' data) = rawText data.
Proof.
  intros Hthrow. induction data as [|seg data IH]; [reflexivity|].
  cbn [map flat_map]. unfold rawText in *. cbn [map List.concat].
  rewrite IH. f_equal. destruct seg as [d|d rw st]; [reflexivity|].
  cbn [segmentNode raw]. destruct (Hthrow d st) as [e ->]. reflexivity.
Qed.

Lemma scanText_failing_text (fuel : nat) (text : str) (opts : options')
    (frag : list node) :
  (forall source style, exists e, latexToMarkup source style = Throw e) ->
  scanText' fuel text opts = Some frag ->
  flat_map textOf frag = text.
Proof.
  intros Hthrow. unfold scanText.
  destruct (processEnvironments _ && matchesBegin text).
  - destruct (Hthrow text displaystyle) as [e ->].
    intros E; inversion E. cbn. apply app_nil_r.
  - destruct (splitWithDelimiters _ _ _) as [data|] eqn:Es; [|discriminate].
    intros E; inversion E. rewrite scanText_for_map. cbn [app].
    rewrite segmentNode_text by exact Hthrow.
    exact (splitWithDelimiters_raw _ _ _ _ Es).
Qed.

Lemma scanElement_for_failing_text (opts : options') :
  (forall source style, exists e, latexToMarkup source style = Throw e) ->
  forall fuel childNodes out visited,
    scanElement_for' fuel opts childNodes 0 [] = Some (out, visited) ->
    flat_map textOf out = flat_map textOf childNodes.
Proof.
  intros Hthrow. induction fuel as [|fuel IH]; intros cs out v;
    [discriminate|].
  destruct cs as [|[t|nodeName id className kids|d] post].
  - intros E; inversion E; reflexivity.
  - rewrite scanElement_for_text.
    destruct (scanText' fuel t opts) as [frag|] eqn:Et; [|discriminate].
    destruct (scanElement_for' fuel opts post 0 []) as [[post' v']|] eqn:Ep;
      [|discriminate].
    intros E; inversion E; subst. rewrite flat_map_app.
    rewrite (scanText_failing_text _ _ _ _ Hthrow Et), (IH _ _ _ Ep).
    reflexivity.
  - rewrite scanElement_for_element.
    destruct (shouldRender' opts nodeName className).
    + destruct (scanElement_for' fuel opts kids 0 []) as [[kids' vk]|] eqn:Ek;
        [|discriminate].
      destruct (scanElement_for' fuel opts post 0 []) as [[post' v']|] eqn:Ep;
        [|discriminate].
      intros E; inversion E; subst. cbn [flat_map textOf].
      rewrite (IH _ _ _ Ek), (IH _ _ _ Ep). reflexivity.
    + destruct (scanElement_for' fuel opts post 0 []) as [[post' v']|] eqn:Ep;
        [|discriminate].
      intros E; inversion E; subst. cbn [flat_map textOf].
      rewrite (IH _ _ _ Ep). reflexivity.
  - rewrite scanElement_for_comment.
    destruct (scanElement_for' fuel opts post 0 []) as [[post' v']|] eqn:Ep;
      [|discriminate].
    intros E; inversion E; subst. cbn [flat_map textOf].
    rewrite (IH _ _ _ Ep). reflexivity.
Qed.

(** When the renderer fails on every source, a traversal keeps the text of
    the tree: every math region comes back as its raw text, in either path
    of [scanText]; and the traversal returns when the delimiter pairs are
    proper. *)
Theorem failing_renderer_keeps_text (opts : options') (elem : node) :
  (forall source style, exists e, latexToMarkup source style = Throw e) ->
  (forall fuel elem' visited,
     scanElement' fuel elem opts = Some (elem', visited) ->
     textOf elem' = textOf elem)
  /\ (properDelimiters (delimiters (TeX (given opts))) = true ->
      exists N elem', forall fuel, (N <= fuel)%nat ->
        exists visited,
          scanElement' fuel elem opts = Some (elem', visited)
          /\ textOf elem' = textOf elem).
Proof.
  intros Hthrow.
  assert (Hpart : forall fuel elem' visited,
     scanElement' fuel elem opts = Some (elem', visited) ->
     textOf elem' = textOf elem).
  { intros fuel elem' v. unfold scanElement.
    destruct elem as [t|nodeName id className kids|d];
      try (intros E; inversion E; reflexivity).
    destruct (scanElement_for' fuel opts kids 0 []) as [[kids' vk]|] eqn:Ek;
      [|discriminate].
    intros E; inversion E; subst. cbn [textOf].
    exact (scanElement_for_failing_text opts Hthrow _ _ _ _ Ek). }
  split; [exact Hpart|].
  intros Hp.
  destruct (scanElement_terminates regexp RegExp_test parseHTML latexToMarkup
              opts elem Hp) as (N & elem' & H).
  exists N, elem'. intros fuel Hf. eexists. split; [exact (H fuel Hf)|].
  exact (Hpart _ _ _ (H fuel Hf)).
Qed.

(** *** A tree without math *)

Lemma scanText_plain (fuel : nat) (text : str) (opts : options') :
  plainText (TeX (given opts)) text = true ->
  scanText' (S fuel) text opts = Some [TextNode text].
Proof.
  unfold plainText. intros H. apply andb_true_iff in H as [Henv Htok].
  apply negb_true_iff in Henv. unfold scanText. rewrite Henv.
  rewrite splitWithDelimiters_plain by exact Htok. reflexivity.
Qed.

Lemma scanElement_for_plain (opts : options') :
  forall childNodes,
    Forall (fun n => plainNode (TeX (given opts)) n = true ->
                     exists N, forall fuel, (N <= fuel)%nat ->
                       scanElement_for' fuel opts (childNodesOf n) 0 []
                       = Some (childNodesOf n,
                               flat_map (reachable' opts) (childNodesOf n)))
           childNodes ->
    forallb (plainNode (TeX (given opts))) childNodes = true ->
    exists N, forall fuel, (N <= fuel)%nat ->
      scanElement_for' fuel opts childNodes 0 []
      = Some (childNodes, flat_map (reachable' opts) childNodes).
Proof.
  induction childNodes as [|c post IH]; intros Hall Hplain.
  - exists 1%nat. intros [|fuel] Hf; [lia|reflexivity].
  - inversion Hall as [|? ? Hc Hpost]; subst.
    cbn [forallb] in Hplain. apply andb_true_iff in Hplain as [Hpc Hpp].
    destruct (IH Hpost Hpp) as (N2 & Hrest).
    destruct c as [t|nodeName id className kids|d].
    + exists (S (S N2)). intros [|[|fuel]] Hf; try lia.
      rewrite scanElement_for_text, scanText_plain by exact Hpc.
      rewrite Hrest by lia. reflexivity.
    + destruct (shouldRender' opts nodeName className) eqn:Es.
      * destruct (Hc Hpc) as (N1 & Hkids). cbn [childNodesOf] in Hkids.
        exists (S (Nat.max N1 N2)). intros [|fuel] Hf; [lia|].
        rewrite scanElement_for_element, Es, Hkids, Hrest by lia.
        cbn [flat_map reachableNodes]. rewrite Es. reflexivity.
      * exists (S N2). intros [|fuel] Hf; [lia|].
        rewrite scanElement_for_element, Es, Hrest by lia.
        cbn [flat_map reachableNodes]. rewrite Es. reflexivity.
    + exists (S N2). intros [|fuel] Hf; [lia|].
      rewrite scanElement_for_comment, Hrest by lia. reflexivity.
Qed.

(** A tree in whose text nodes no left token occurs, none of them opening
    an environment, is left as it is by a traversal, which returns whatever
    the renderer and the right tokens are. *)
Theorem plain_tree_unchanged (opts : options') (elem : node) :
  plainNode (TeX (given opts)) elem = true ->
  exists N, forall fuel, (N <= fuel)%nat ->
    scanElement' fuel elem opts
    = Some (elem, flat_map (reachable' opts) (childNodesOf elem)).
Proof.
  assert (Hall : forall n,
            plainNode (TeX (given opts)) n = true ->
            exists N, forall fuel, (N <= fuel)%nat ->
              scanElement_for' fuel opts (childNodesOf n) 0 []
              = Some (childNodesOf n,
                      flat_map (reachable' opts) (childNodesOf n))).
  { apply (node_nested_ind
             (fun n => plainNode (TeX (given opts)) n = true ->
                exists N, forall fuel, (N <= fuel)%nat ->
                  scanElement_for' fuel opts (childNodesOf n) 0 []
                  = Some (childNodesOf n,
                          flat_map (reachable' opts) (childNodesOf n)))).
    - intros t _. exists 1%nat. intros [|fuel] Hf; [lia|reflexivity].
    - intros nodeName id className kids Hkids Hplain.
      cbn [childNodesOf plainNode] in *.
      exact (scanElement_for_plain opts kids Hkids Hplain).
    - intros d _. exists 1%nat. intros [|fuel] Hf; [lia|reflexivity]. }
  intros Hplain. destruct (Hall elem Hplain) as (N & H).
  exists N. intros fuel Hf. unfold scanElement.
  destruct elem as [t|nodeName id className kids|d]; try reflexivity.
  cbn [childNodesOf] in *. rewrite H by exact Hf. reflexivity.
Qed.

(** *** The fragment is never empty *)

Lemma scanElement_for_grows (opts : options') :
  forall fuel childNodes out visited,
    scanElement_for' fuel opts childNodes 0 [] = Some (out, visited) ->
    (List.length childNodes <= List.length out)%nat.
Proof.
  induction fuel as [|fuel IH]; intros cs out v; [discriminate|].
  destruct cs as [|[t|nodeName id className kids|d] post].
  - intros E; inversion E; cbn; lia.
  - rewrite scanElement_for_text.
    destruct (scanText' fuel t opts) as [frag|] eqn:Et; [|discriminate].
    destruct (scanElement_for' fuel opts post 0 []) as [[post' v']|] eqn:Ep;
      [|discriminate].
    intros E; inversion E; subst. rewrite length_app. cbn [List.length].
    apply scanText_nonempty in Et. apply IH in Ep. lia.
  - rewrite scanElement_for_element.
    destruct (shouldRender' opts nodeName className).
    + destruct (scanElement_for' fuel opts kids 0 []) as [[kids' vk]|];
        [|discriminate].
      destruct (scanElement_for' fuel opts post 0 []) as [[post' v']|] eqn:Ep;
        [|discriminate].
      intros E; inversion E; subst. cbn [List.length]. apply IH in Ep. lia.
    + destruct (scanElement_for' fuel opts post 0 []) as [[post' v']|] eqn:Ep;
        [|discriminate].
      intros E; inversion E; subst. cbn [List.length]. apply IH in Ep. lia.
  - rewrite scanElement_for_comment.
    destruct (scanElement_for' fuel opts post 0 []) as [[post' v']|] eqn:Ep;
      [|discriminate].
    intros E; inversion E; subst. cbn [List.length]. apply IH in Ep. lia.
Qed.

(** [scanText] never gives an empty fragment, in either path, so a text
    child is never removed without a node in its place, and the child loop
    never leaves an element with fewer children than it had. *)
Theorem traversal_never_removes (fuel : nat) (opts : options') :
  (forall text frag,
     scanText' fuel text opts = Some frag -> (1 <= List.length frag)%nat)
  /\ (forall childNodes out visited,
        scanElement_for' fuel opts childNodes 0 [] = Some (out, visited) ->
        (List.length childNodes <= List.length out)%nat).
Proof.
  split.
  - intros text frag E.
    exact (scanText_nonempty regexp parseHTML latexToMarkup _ _ _ _ E).
  - apply scanElement_for_grows.
Qed.

(** *** The environment path when the renderer succeeds *)

(** A text that opens an environment is rendered whole, in display style,
    into one span that takes the place of the text child; the delimiter
    pairs play no part, so this needs no fuel and returns for every pair. *)
Theorem environment_success_one_span (fuel : nat) (text markup : str)
    (opts : options') :
  processEnvironments (TeX (given opts)) = true ->
  matchesBegin text = true ->
  latexToMarkup text displaystyle = Normal markup ->
  scanText' fuel text opts
  = Some [Element (lit "SPAN") [] [] (parseHTML markup)]
  /\ forall pre post visited,
       scanElement_for' (S fuel) opts (pre ++ TextNode text :: post)
         (List.length pre) visited
       = match scanElement_for' fuel opts post 0 [] with
         | None => None
         | Some (post', v) =>
             Some (pre ++ Element (lit "SPAN") [] [] (parseHTML markup)
                       :: post',
                   visited ++ TextNode text :: v)
         end.
Proof.
  intros Hp Hm Ht.
  assert (E : scanText' fuel text opts
              = Some [Element (lit "SPAN") [] [] (parseHTML markup)]).
  { unfold scanText. rewrite Hp, Hm, Ht. reflexivity. }
  split; [exact E|].
  intros pre post visited. rewrite scanElement_for_text_at, E. reflexivity.
Qed.

(** *** The flag [TeX.disabled] *)

Lemma scanText_sameUse (a b : options') (fuel : nat) (text : str) :
  sameUse a b -> scanText' fuel text a = scanText' fuel text b.
Proof.
  intros (_ & Hp & Hd & _ & _). unfold scanText. rewrite Hp, Hd. reflexivity.
Qed.

Lemma shouldRender_sameUse (a b : options') (nodeName className : str) :
  sameUse a b ->
  shouldRender' a nodeName className = shouldRender' b nodeName className.
Proof.
  intros (Hs & _ & _ & Hi & Hpp). unfold shouldRender.
  rewrite Hs, Hi, Hpp. reflexivity.
Qed.

Lemma scanElement_for_sameUse (a b : options') :
  sameUse a b ->
  forall fuel childNodes i visited,
    scanElement_for' fuel a childNodes i visited
    = scanElement_for' fuel b childNodes i visited.
Proof.
  intros Hab. induction fuel as [|fuel IH]; intros cs i vis; [reflexivity|].
  cbn [scanElement_for].
  destruct (nth_error cs i) as [[t|nodeName id className kids|d]|];
    try reflexivity.
  - rewrite (scanText_sameUse a b) by exact Hab.
    destruct (scanText' fuel t b); [apply IH|reflexivity].
  - rewrite (shouldRender_sameUse a b) by exact Hab.
    destruct (shouldRender' b nodeName className); [|apply IH].
    rewrite IH.
    destruct (scanElement_for' fuel b kids 0 _) as [[kids' v]|];
      [apply IH|reflexivity].
  - apply IH.
Qed.

Lemma scanElementAt_sameUse (a b : options') (fuel : nat) :
  sameUse a b ->
  forall (p : path) (n : node),
    scanElementAt' fuel p n a = scanElementAt' fuel p n b.
Proof.
  intros Hab. induction p as [|k p IH]; intros n.
  - cbn [scanElementAt]. unfold scanElement.
    destruct n; try reflexivity.
    rewrite (scanElement_for_sameUse a b Hab). reflexivity.
  - cbn [scanElementAt]. destruct n as [t|nodeName id className kids|d];
      try reflexivity.
    destruct (nth_error kids k) as [c|]; [|reflexivity].
    rewrite IH. reflexivity.
Qed.

(** The entry point never reads [TeX.disabled]: with the flag set the
    traversal is the one with the flag cleared. *)
Theorem disabled_flag_ignored (fuel : nat) (elem : rootArg) (o : overrides)
    (tex : TeXOptions) (body : node) :
  renderMathInElement' fuel elem (withTeX o (setDisabled true tex)) body
  = renderMathInElement' fuel elem (withTeX o (setDisabled false tex)) body.
Proof.
  unfold renderMathInElement.
  destruct (falsy elem); [reflexivity|].
  cbn [assign withTeX o_skipTags o_ignoreClass o_processClass o_TeX
       ignoreClass processClass].
  destruct (RegExp_new _) as [ip|]; [|reflexivity].
  destruct (RegExp_new _) as [pp|]; [|reflexivity].
  erewrite scanElementAt_sameUse; [reflexivity|].
  repeat split.
Qed.

(** *** The callers in [mathlive.js] *)

(** [renderMathInDocument] is the traversal from [document.body], so it does
    what [renderMathInElement] does for an identifier that resolves to no
    node; when the [AutoRender] module is not loaded both return with
    nothing visited, changed or raised, whatever the options are. *)
Theorem MathLive_entry_points (fuel : nat) (options_ : overrides)
    (body : node) :
  (forall id,
     falsy (ById id) = false ->
     getElementById body id = None ->
     MathLive_renderMathInElement regexp RegExp_new RegExp_test parseHTML
       latexToMarkup true fuel (ById id) options_ body
     = MathLive_renderMathInDocument regexp RegExp_new RegExp_test parseHTML
         latexToMarkup true fuel options_ body)
  /\ (forall element,
        MathLive_renderMathInElement regexp RegExp_new RegExp_test parseHTML
          latexToMarkup false fuel element options_ body
        = Completed body []
        /\ MathLive_renderMathInDocument regexp RegExp_new RegExp_test
             parseHTML latexToMarkup false fuel options_ body
           = Completed body []).
Proof.
  split.
  - intros id Hf Hg.
    unfold MathLive_renderMathInElement, MathLive_renderMathInDocument.
    cbn [negb]. unfold renderMathInElement. rewrite Hf, Hg. reflexivity.
  - intros element. split; reflexivity.
Qed.

End WalkerMore.

(** ** Worked examples for the further properties *)

Lemma skipTags_lower_case_witness :
  toLowerCase (lit "PRE") <> lit "PRE"
  /\ shouldRender str Sample.RegExp_test
       {| given := {| skipTags := [lit "PRE"];
                      ignoreClass := lit "tex2jax_ignore";
                      processClass := lit "tex2jax_process";
                      TeX := TeX defaultOptions |};
          ignoreClassPattern := lit "tex2jax_ignore";
          processClassPattern := lit "tex2jax_process" |}
       (lit "PRE") []
     = shouldRender str Sample.RegExp_test
         {| given := {| skipTags := [];
                        ignoreClass := lit "tex2jax_ignore";
                        processClass := lit "tex2jax_process";
                        TeX := TeX defaultOptions |};
            ignoreClassPattern := lit "tex2jax_ignore";
            processClassPattern := lit "tex2jax_process" |}
         (lit "PRE") [].
Proof.
  split; [discriminate|].
  apply (proj2 (skipTags_lower_case str Sample.RegExp_test (lit "PRE") []
                  (lit "tex2jax_ignore") (lit "tex2jax_process")
                  (TeX defaultOptions) (lit "tex2jax_ignore")
                  (lit "tex2jax_process") (lit "PRE") []
                  ltac:(discriminate))).
Defined.

Lemma failing_renderer_keeps_text_witness :
  (forall source style,
     exists e, SampleMore.alwaysFails source style = Throw e)
  /\ exists elem' visited,
       scanElement str Sample.RegExp_test Sample.parseHTML
         SampleMore.alwaysFails 50 Sample.page Sample.opts
       = Some (elem', visited)
       /\ textOf elem' = textOf Sample.page.
Proof.
  assert (Hthrow : forall source style,
            exists e, SampleMore.alwaysFails source style = Throw e)
    by (intros source style; eexists; reflexivity).
  split; [exact Hthrow|].
  destruct (scanElement str Sample.RegExp_test Sample.parseHTML
              SampleMore.alwaysFails 50 Sample.page Sample.opts)
    as [[elem' visited]|] eqn:E; [|vm_compute in E; discriminate].
  exists elem', visited. split; [reflexivity|].
  exact (proj1 (failing_renderer_keeps_text str Sample.RegExp_test
                  Sample.parseHTML SampleMore.alwaysFails Sample.opts
                  Sample.page Hthrow) 50%nat elem' visited E).
Defined.

Lemma plain_tree_unchanged_witness :
  plainNode (TeX (given Sample.opts)) SampleMore.plainPage = true
  /\ exists N, forall fuel, (N <= fuel)%nat ->
       Sample.scanElement' fuel SampleMore.plainPage Sample.opts
       = Some (SampleMore.plainPage,
               flat_map (reachableNodes str Sample.RegExp_test Sample.opts)
                 (childNodesOf SampleMore.plainPage)).
Proof.
  split; [reflexivity|].
  apply (plain_tree_unchanged str Sample.RegExp_test Sample.parseHTML
           Sample.latexToMarkup Sample.opts SampleMore.plainPage).
  reflexivity.
Defined.

Lemma traversal_never_removes_witness :
  Sample.scanText' 50 (lit "a $$x$$ b") Sample.opts
  = Some [TextNode (lit "a ");
          Element (lit "SPAN") [] [] [TextNode (lit "<m>x</m>")];
          TextNode (lit " b")]
  /\ (1 <= List.length
             [TextNode (lit "a ");
              Element (lit "SPAN") [] [] [TextNode (lit "<m>x</m>")];
              TextNode (lit " b")])%nat.
Proof.
  split; [reflexivity|].
  apply (proj1 (traversal_never_removes str Sample.RegExp_test
                  Sample.parseHTML Sample.latexToMarkup 50 Sample.opts)
           (lit "a $$x$$ b")).
  reflexivity.
Defined.

Lemma environment_success_one_span_witness :
  processEnvironments (TeX (given Sample.opts)) = true
  /\ matchesBegin SampleMore.environmentText = true
  /\ Sample.latexToMarkup SampleMore.environmentText displaystyle
     = Normal (lit "<m>" ++ SampleMore.environmentText ++ lit "</m>")
  /\ Sample.scanText' 0 SampleMore.environmentText Sample.opts
     = Some [Element (lit "SPAN") [] []
               (Sample.parseHTML
                  (lit "<m>" ++ SampleMore.environmentText ++ lit "</m>"))].
Proof.
  split; [reflexivity|]. split; [reflexivity|]. split; [reflexivity|].
  apply (proj1 (environment_success_one_span str Sample.RegExp_test
                  Sample.parseHTML Sample.latexToMarkup 0
                  SampleMore.environmentText
                  (lit "<m>" ++ SampleMore.environmentText ++ lit "</m>")
                  Sample.opts eq_refl eq_refl eq_refl)).
Defined.

Lemma MathLive_entry_points_witness :
  falsy (ById (lit "missing")) = false
  /\ getElementById Sample.page (lit "missing") = None
  /\ MathLive_renderMathInElement str Sample.RegExp_new Sample.RegExp_test
       Sample.parseHTML Sample.latexToMarkup true 50 (ById (lit "missing"))
       Sample.noOverrides Sample.page
     = MathLive_renderMathInDocument str Sample.RegExp_new Sample.RegExp_test
         Sample.parseHTML Sample.latexToMarkup true 50 Sample.noOverrides
         Sample.page.
Proof.
  split; [reflexivity|]. split; [reflexivity|].
  apply (proj1 (MathLive_entry_points str Sample.RegExp_new
                  Sample.RegExp_test Sample.parseHTML Sample.latexToMarkup
                  50 Sample.noOverrides Sample.page));
    reflexivity.
Defined.
